(** * lavalink.js: the per-guild [Player] and the [PlayerInstance] manager

    A shallow embedding of [src/Player.js]: the methods of the class
    [Player], and of the class [PlayerInstance] the methods [join], [leave],
    [returnPlayer], [voiceServerUpdate] and [sendWS].  JavaScript values are
    an inductive type, a method is a computation in a state-and-exception
    monad over the object it runs on, and everything a method hands to the
    outside world (a command for the Lavalink server, an event for the
    listeners, a packet for the Discord gateway) is appended to a log, in
    program order. *)

From stdpp Require Import base option list strings gmap fin_maps.
From Stdlib Require Import ZArith QArith Qabs Lia.

Local Open Scope string_scope.
Local Open Scope list_scope.
Local Open Scope Z_scope.

(** ** JavaScript values *)

Module Js.

(** A Number.  Every finite double is a rational, so [Fin] ranges over a
    superset of the finite doubles; [-0] is identified with [0], which every
    operator used by the source ([!], [!==], [<], [>], [%]) treats alike. *)
Inductive number :=
  | Fin (q : Q)
  | NaN
  | Inf (negative : bool).

Inductive value :=
  | VUndefined
  | VNull
  | VBool (b : bool)
  | VNum (n : number)
  | VStr (s : string).

Definition of_Z (z : Z) : value := VNum (Fin (inject_Z z)).

(** What a function throws: [new Error(msg)], or the [TypeError] the engine
    raises when a property of [undefined]/[null] is read or a non-function
    is called. *)
Inductive exn :=
  | Error (msg : string)
  | TypeError.

(** ToBoolean. *)
Definition truthy (v : value) : bool :=
  match v with
  | VUndefined | VNull => false
  | VBool b => b
  | VNum (Fin q) => negb (Qeq_bool q 0%Q)
  | VNum NaN => false
  | VNum (Inf _) => true
  | VStr s => negb (String.eqb s "")
  end.

(** A parameter default [p = d]: only [undefined] is replaced. *)
Definition default_param (d v : value) : value :=
  match v with
  | VUndefined => d
  | _ => v
  end.

(** Truncation toward zero. *)
Definition trunc (q : Q) : Z := Z.quot (Qnum q) (Z.pos (Qden q)).

Definition is_integral (q : Q) : bool := Z.rem (Qnum q) (Z.pos (Qden q)) =? 0.

Definition Qlt_bool (a b : Q) : bool := Qle_bool a b && negb (Qeq_bool a b).

(** [a < b] on Numbers: false as soon as one side is [NaN]. *)
Definition num_lt (a b : number) : bool :=
  match a with
  | Fin x =>
      match b with
      | Fin y => Qlt_bool x y
      | NaN => false
      | Inf negative => negb negative
      end
  | NaN => false
  | Inf negative =>
      match b with
      | Fin _ => negative
      | NaN => false
      | Inf negative' => negative && negb negative'
      end
  end.

(** [a === b] on Numbers. *)
Definition num_eq (a b : number) : bool :=
  match a, b with
  | Fin x, Fin y => Qeq_bool x y
  | Inf s, Inf t => Bool.eqb s t
  | _, _ => false
  end.

(** [a % b]: the remainder of the truncating division, with the sign of the
    dividend; exact on doubles. *)
Definition num_rem (a b : number) : number :=
  match a with
  | Fin x =>
      match b with
      | Fin y =>
          if Qeq_bool y 0%Q then NaN else Fin (x - y * inject_Z (trunc (x / y)))%Q
      | NaN => NaN
      | Inf _ => Fin x
      end
  | NaN | Inf _ => NaN
  end.

(** [a === b] on values of the modelled types. *)
Definition strict_eq (a b : value) : bool :=
  match a, b with
  | VUndefined, VUndefined | VNull, VNull => true
  | VBool x, VBool y => Bool.eqb x y
  | VNum x, VNum y => num_eq x y
  | VStr x, VStr y => String.eqb x y
  | _, _ => false
  end.

(** Number::toString prints a finite non-zero number in plain decimal
    notation when its magnitude lies in [10^-6, 10^21), and in exponent
    notation otherwise. *)
Definition decimal_notation (q : Q) : bool :=
  Qeq_bool q 0%Q
  || (Qle_bool (1 # 1000000)%Q (Qabs q) && Qlt_bool (Qabs q) (inject_Z (10 ^ 21))).

Section Conversions.

(** The conversions between strings and numbers belong to the JavaScript
    engine.  The development is parametric in the three of them whose
    result depends on the text of a numeral:
    - [StringToNumber s] is [Number(s)] for a string [s];
    - [StringParseInt s] is [parseInt(s)] for a string [s], [None] for
      [NaN] (a result of [parseInt] is an integer or [NaN]);
    - [ExponentParseInt q] is the integer [parseInt] reads off the
      exponent notation of [q] (the digits before the first [.] or [e] of
      the shortest decimal numeral that reads back as the double [q]). *)
Variable StringToNumber : string → number.
Variable StringParseInt : string → option Z.
Variable ExponentParseInt : Q → Z.

(** ToNumber, which [Number(v)], [%], [<] and [>] apply to an operand. *)
Definition ToNumber (v : value) : number :=
  match v with
  | VUndefined => NaN
  | VNull => Fin 0%Q
  | VBool b => Fin (if b then 1%Q else 0%Q)
  | VNum n => n
  | VStr s => StringToNumber s
  end.

(** [Number(v)] *)
Definition Number (v : value) : value := VNum (ToNumber v).

(** [parseInt(v)]: [v] is converted to a string, and the longest prefix
    that is an integer numeral is read; [NaN] when there is none (as for
    "undefined", "null", "true", "NaN", "Infinity"). *)
Definition parseInt (v : value) : value :=
  match v with
  | VUndefined | VNull | VBool _ => VNum NaN
  | VNum (Fin q) =>
      of_Z (if decimal_notation q then trunc q else ExponentParseInt q)
  | VNum _ => VNum NaN
  | VStr s =>
      match StringParseInt s with
      | Some z => of_Z z
      | None => VNum NaN
      end
  end.

Definition lt (a b : value) : bool := num_lt (ToNumber a) (ToNumber b).
Definition gt (a b : value) : bool := num_lt (ToNumber b) (ToNumber a).
Definition rem (a b : value) : value := VNum (num_rem (ToNumber a) (ToNumber b)).

End Conversions.

End Js.

Export Js.

(** ** The monad of methods

    A method runs on a state [S]; it returns a value or throws, and the
    state it leaves behind is kept in both cases (JavaScript does not roll
    back the writes made before a [throw]). *)

Inductive outcome (A : Type) :=
  | Return (a : A)
  | Throw (e : exn).
Arguments Return {A} a.
Arguments Throw {A} e.

Definition M (S A : Type) : Type := S → outcome A * S.

#[global] Instance M_ret {S} : MRet (M S) := λ A a s, (Return a, s).

#[global] Instance M_bind {S} : MBind (M S) := λ A B f m s,
  match m s with
  | (Return a, s') => f a s'
  | (Throw e, s') => (Throw e, s')
  end.

Definition throw {S A} (e : exn) : M S A := λ s, (Throw e, s).
Definition get {S} : M S S := λ s, (Return s, s).
Definition gets {S A} (f : S → A) : M S A := λ s, (Return (f s), s).
Definition modify {S} (f : S → S) : M S () := λ s, (Return (), f s).

(** [if (c) { throw e; }] *)
Definition throw_if {S} (c : bool) (e : exn) : M S () :=
  if c then throw e else mret ().

Definition throws {A S} (r : outcome A * S) : Prop := ∃ e, r.1 = Throw e.

(** ** What the library exchanges with the outside world *)

(** The second argument of [play]. *)
Record PlayOptions := {
  startsAt : value;
  endsAt : value;
}.

(** The payload [d] of a [VOICE_SERVER_UPDATE] gateway packet. *)
Record VoiceServerUpdate := {
  guild_id : string;
  token : value;
  endpoint : value;
}.

(** The JSON objects handed to [LavalinkWebsocket.send], one constructor
    per [op]; the arguments are the other properties, in source order. *)
Inductive Command :=
  | voiceUpdate (guildId : string) (sessionId : value) (event : VoiceServerUpdate)
  | play_ (guildId : string) (track : value)
  | stop_ (guildId : string)
  | pause_ (guildId : string) (pause : value)
  | volume_ (guildId : string) (volume : value)
  | destroy_ (guildId : string).

(** A message received from the Lavalink server, as far as the library
    reads it. *)
Record Message := {
  msg_op : value;
  msg_guildId : string;
  msg_type : value;
  msg_reason : value;
}.

Inductive Argument :=
  | AValue (v : value)
  | AMessage (m : Message).

(** What a player does to the outside world: a call of
    [LavalinkWebsocket.send], with the second argument when there is one,
    or a call of [EventEmitter.emit]. *)
Inductive Effect :=
  | Send (msg : Command) (options : option PlayOptions)
  | Emit (event : string) (args : list Argument).

(** ** [class Player] *)

Module Player.

(** The fields the methods read or write, with [this.state] as a record of
    its own.  [server] is the identity of the
    [LavalinkWebsocket] object; the back references [client],
    [playerInstance] and [sendWS] are stored by the constructor and never
    read.  [playing] and [track] are the two properties [eventEmitter]
    assigns without the constructor having declared them.  [listeners] holds
    the event name of every registered listener. *)
Record State := {
  volume : value;
  equalizer : list value;
}.

Record t := {
  server : nat;
  guildID : string;
  channelID : string;
  queue : list value;
  currentTrack : value;
  isPlaying : bool;
  isPaused : value;
  state : State;
  startPlayingTimestamp : value;
  playing : value;
  track : value;
  listeners : list string;
}.

(** What a method returns: [this] or a plain value. *)
Inductive returned :=
  | This
  | Val (v : value).

(** A method runs on [this] and on the log of its effects. *)
Abbreviation method := (M (t * list Effect)).

Definition set_currentTrack (v : value) (p : t) : t :=
  {| server := server p; guildID := guildID p; channelID := channelID p;
     queue := queue p; currentTrack := v; isPlaying := isPlaying p;
     isPaused := isPaused p; state := state p;
     startPlayingTimestamp := startPlayingTimestamp p; playing := playing p;
     track := track p; listeners := listeners p |}.

Definition set_isPlaying (b : bool) (p : t) : t :=
  {| server := server p; guildID := guildID p; channelID := channelID p;
     queue := queue p; currentTrack := currentTrack p; isPlaying := b;
     isPaused := isPaused p; state := state p;
     startPlayingTimestamp := startPlayingTimestamp p; playing := playing p;
     track := track p; listeners := listeners p |}.

Definition set_isPaused (v : value) (p : t) : t :=
  {| server := server p; guildID := guildID p; channelID := channelID p;
     queue := queue p; currentTrack := currentTrack p; isPlaying := isPlaying p;
     isPaused := v; state := state p;
     startPlayingTimestamp := startPlayingTimestamp p; playing := playing p;
     track := track p; listeners := listeners p |}.

(** [this.state.volume = v] *)
Definition set_state_volume (v : value) (p : t) : t :=
  {| server := server p; guildID := guildID p; channelID := channelID p;
     queue := queue p; currentTrack := currentTrack p; isPlaying := isPlaying p;
     isPaused := isPaused p;
     state := {| volume := v; equalizer := equalizer (state p) |};
     startPlayingTimestamp := startPlayingTimestamp p; playing := playing p;
     track := track p; listeners := listeners p |}.

Definition set_startPlayingTimestamp (v : value) (p : t) : t :=
  {| server := server p; guildID := guildID p; channelID := channelID p;
     queue := queue p; currentTrack := currentTrack p; isPlaying := isPlaying p;
     isPaused := isPaused p; state := state p;
     startPlayingTimestamp := v; playing := playing p;
     track := track p; listeners := listeners p |}.

Definition set_playing (v : value) (p : t) : t :=
  {| server := server p; guildID := guildID p; channelID := channelID p;
     queue := queue p; currentTrack := currentTrack p; isPlaying := isPlaying p;
     isPaused := isPaused p; state := state p;
     startPlayingTimestamp := startPlayingTimestamp p; playing := v;
     track := track p; listeners := listeners p |}.

Definition set_track (v : value) (p : t) : t :=
  {| server := server p; guildID := guildID p; channelID := channelID p;
     queue := queue p; currentTrack := currentTrack p; isPlaying := isPlaying p;
     isPaused := isPaused p; state := state p;
     startPlayingTimestamp := startPlayingTimestamp p; playing := playing p;
     track := v; listeners := listeners p |}.

Definition set_listeners (l : list string) (p : t) : t :=
  {| server := server p; guildID := guildID p; channelID := channelID p;
     queue := queue p; currentTrack := currentTrack p; isPlaying := isPlaying p;
     isPaused := isPaused p; state := state p;
     startPlayingTimestamp := startPlayingTimestamp p; playing := playing p;
     track := track p; listeners := l |}.

(** [this.f] and [this.f = v] *)
Definition read {A} (f : t → A) : method A := gets (λ s, f s.1).
Definition write (f : t → t) : method () := modify (λ s, (f s.1, s.2)).

(** Modelled from the spec: [LavalinkWebsocket.send], of the class
    [LavalinkWebsocket] that [Player.js] requires and whose file is missing.
    The spec describes it as a pass-through that sends a JSON command to
    the external audio server: [this.server.send(msg)] and
    [this.server.send(msg, options)] record the command and return. *)
Definition server_send (msg : Command) (options : option PlayOptions) : method () :=
  modify (λ s, (s.1, s.2 ++ [Send msg options])).

(** [this.listenerCount(event)] *)
Definition count (event : string) (l : list string) : nat :=
  length (filter (λ e : string, e = event) l).

Definition listenerCount (event : string) : method nat :=
  l ← read listeners; mret (count event l).

(** [this.emit(event, ...args)]: true when the event had listeners. *)
Definition emit (event : string) (args : list Argument) : method value :=
  n ← listenerCount event;
  modify (λ s, (s.1, s.2 ++ [Emit event args]));;
  mret (VBool (negb (Nat.eqb n 0))).

(** [this.removeAllListeners()] *)
Definition removeAllListeners : method returned :=
  write (set_listeners []);;
  mret This.

(** The options of the constructor that the methods use later. *)
Record PlayerOptions := {
  opt_server : nat;
  opt_guildID : string;
  opt_channelID : string;
}.

Definition constructor (options : PlayerOptions) : t :=
  {| server := opt_server options;
     guildID := opt_guildID options;
     channelID := opt_channelID options;
     queue := [];
     currentTrack := VUndefined;
     isPlaying := false;
     isPaused := VBool false;
     state := {| volume := of_Z 100; equalizer := [] |};
     startPlayingTimestamp := VNull;
     playing := VUndefined;
     track := VUndefined;
     listeners := [] |}.

Definition connect (session : value) (event : VoiceServerUpdate) : method returned :=
  g ← read guildID;
  server_send (voiceUpdate g session event) None;;
  mret This.

Definition stop : method returned :=
  g ← read guildID;
  server_send (stop_ g) None;;
  write (set_isPlaying false);;
  write (set_currentTrack VUndefined);;
  mret This.

Definition disconnect (reason : value) : method returned :=
  stop;;
  emit "disconnect" [AValue reason];;
  write (set_isPlaying false);;
  mret This.

Definition getQueue : method (list value) := read queue.

(** [now] is what [Date.now()] reads. *)
Definition play (now : Z) (track : value) (options : option PlayOptions) : method returned :=
  let options := default {| startsAt := VUndefined; endsAt := VUndefined |} options in
  throw_if (negb (truthy track)) (Error "Please provide a valid base64 track!");;
  write (set_currentTrack track);;
  g ← read guildID;
  server_send (play_ g track) (Some options);;
  write (set_isPlaying true);;
  write (set_startPlayingTimestamp (of_Z now));;
  mret This.

Definition pause (paused : value) : method returned :=
  let paused := default_param (VBool true) paused in
  g ← read guildID;
  server_send (pause_ g paused) None;;
  write (set_isPaused paused);;
  write (set_isPlaying (negb (negb (truthy paused))));;
  mret This.

Definition resume : method returned :=
  pause (VBool false);;
  mret (Val VUndefined).

Definition skip : method returned :=
  stop;;
  mret (Val VUndefined).

Section SetVolume.

Variable StringToNumber : string → number.
Variable StringParseInt : string → option Z.
Variable ExponentParseInt : Q → Z.

Abbreviation Number := (Number StringToNumber).
Abbreviation parseInt := (parseInt StringParseInt ExponentParseInt).
Notation "a %% b" := (rem StringToNumber a b) (at level 40, left associativity).
Notation "a < b" := (lt StringToNumber a b).
Notation "a > b" := (gt StringToNumber a b).
Notation "a !== b" := (negb (strict_eq a b)) (at level 70).
Notation "! a" := (negb (truthy a)) (at level 35, right associativity).

Definition setVolume (volume force : value) : method returned :=
  let force := default_param (VBool false) force in
  throw_if (! volume)
    (Error "Please provide a valid volume value!");;
  throw_if (! Number volume || (volume %% parseInt volume !== of_Z 0))
    (Error "The volume have to be an integer number!");;
  throw_if ((volume < of_Z 0) || (volume > of_Z 1000))
    (Error "The volume doesn't have to be inferior to 0, or superior to 1000!");;
  throw_if ((volume > of_Z 100) && ! force)
    (Error "To set the volume value over 100, you have to set force option to true.");;
  g ← read guildID;
  server_send (volume_ g volume) None;;
  write (set_state_volume volume);;
  mret This.

End SetVolume.

Definition destroy : method returned :=
  g ← read guildID;
  server_send (destroy_ g) None;;
  mret This.

(** The [switch] compares [message.type] with [===]; a type that matches no
    case falls out of it and the method returns [undefined]. *)
Definition eventEmitter (message : Message) : method value :=
  if strict_eq (msg_type message) (VStr "TrackStartEvent") then
    emit "trackStart" []
  else if strict_eq (msg_type message) (VStr "TrackEndEvent") then
    (if negb (strict_eq (msg_reason message) (VStr "REPLACED")) then
       write (set_playing (VBool false));;
       write (set_track VNull)
     else mret ());;
    emit "trackEnd" [AMessage message]
  else if strict_eq (msg_type message) (VStr "TrackExceptionEvent") then
    n ← listenerCount "error";
    if negb (Nat.eqb n 0) then emit "error" [AMessage message]
    else mret VUndefined
  else if strict_eq (msg_type message) (VStr "TrackStuckEvent") then
    stop;;
    emit "trackEnd" [AMessage message]
  else mret VUndefined.

End Player.

(** ** The chat client

    The Discord client is an object of one of the two SDKs the library
    supports.  The record holds what the library reads from it; the
    accessors below follow the property paths of the source and throw the
    [TypeError] of the engine where a path leads through [undefined]. *)

Inductive Sdk := DiscordJs | Eris.

Record Channel := {
  (** [channel.type]: ['voice'] in discord.js, [2] in Eris *)
  type : value;
  (** user ID to the names of the permissions that user has in the channel *)
  permissions : gmap string (list string);
}.

Record Guild := {
  channels : gmap string Channel;
  (** discord.js: the session ID of [guild.me.voice]; [None] when [guild.me]
      is [null] *)
  me : option value;
  (** Eris: user ID to the session ID of that user's voice state *)
  voiceStates : gmap string value;
}.

Record Client := {
  sdk : Sdk;
  (** [client.user.id] *)
  user_id : string;
  (** discord.js: [typeof client.ws.send === 'function'] *)
  ws_send : bool;
  (** the guilds the client knows: [client.guilds.cache] in discord.js,
      [client.guilds] in Eris *)
  guilds : gmap string Guild;
}.

(** The voice-state packet [{ op, d: { guild_id, channel_id, self_mute,
    self_deaf } }] sent to the gateway. *)
Record VoiceStateUpdate := {
  vs_guild_id : string;
  vs_channel_id : value;
  self_mute : value;
  self_deaf : value;
}.

Record Packet := {
  op : Z;
  d : VoiceStateUpdate;
}.

(** Everything that leaves a [PlayerInstance]: a packet through one of the
    three gateway paths of [sendWS], or an effect of one of its players. *)
Inductive Output :=
  | ws_send_ (packet : Packet)
  | shard_send (guild : string) (packet : Packet)
  | shard_sendWS (guild : string) (op : Z) (d : VoiceStateUpdate)
  | ByPlayer (player : nat) (e : Effect).

(** ** [class PlayerInstance] *)

Module PlayerInstance.

(** The constructor throws unless [engine] is one of these two strings. *)
Inductive Engine := discordjs | eris.

(** The fields of the instance, the [Player] objects created so far
    ([players] and every caller hold references into [objects]), and the
    log of what was sent.  [serversStorage] and [players] are the objects
    the source uses as maps, from hosts and from guild IDs; a guild ID is a
    decimal numeral, so no key is a property inherited from
    [Object.prototype]. *)
Record t := {
  client : Client;
  engine : Engine;
  serversStorage : gmap string nat;
  players : gmap string nat;
  objects : gmap nat Player.t;
  log : list Output;
}.

Definition set_players (m : gmap string nat) (w : t) : t :=
  {| client := client w; engine := engine w; serversStorage := serversStorage w;
     players := m; objects := objects w; log := log w |}.

Definition set_objects (h : gmap nat Player.t) (w : t) : t :=
  {| client := client w; engine := engine w; serversStorage := serversStorage w;
     players := players w; objects := h; log := log w |}.

Definition set_log (l : list Output) (w : t) : t :=
  {| client := client w; engine := engine w; serversStorage := serversStorage w;
     players := players w; objects := objects w; log := l |}.

Abbreviation method := (M t).

Definition output (o : Output) : method () := modify (λ w, set_log (log w ++ [o]) w).

(** [player.m(...)]: the method runs on the object [player] refers to, the
    object is updated in place and the effects join the log.  A reference
    always leads to an object ([wf] below); the [TypeError] stands for a
    call on [undefined]. *)
Definition call {A} (player : nat) (m : Player.method A) : method A := λ w,
  match objects w !! player with
  | Some p =>
      let '(r, (p', out)) := m (p, []) in
      (r, set_log (log w ++ (ByPlayer player <$> out))
            (set_objects (<[player := p']> (objects w)) w))
  | None => (Throw TypeError, w)
  end.

(** [new this.Player(options)] *)
Definition new_Player (options : Player.PlayerOptions) : method nat := λ w,
  let player := fresh (dom (objects w)) in
  (Return player, set_objects (<[player := Player.constructor options]> (objects w)) w).

(** *** Property paths into the client *)

(** [x.p] where [x] may be [undefined] *)
Definition deref {A} (x : option A) : method A :=
  match x with
  | Some a => mret a
  | None => throw TypeError
  end.

(** [this.client.guilds.cache.get(id)]: an Eris client has no [cache]. *)
Definition guilds_cache_get (id : string) : method (option Guild) :=
  c ← gets client;
  match sdk c with
  | DiscordJs => mret (guilds c !! id)
  | Eris => throw TypeError
  end.

(** [this.client.guilds.get(id)]: the guild manager of discord.js has no
    [get]. *)
Definition guilds_get (id : string) : method (option Guild) :=
  c ← gets client;
  match sdk c with
  | Eris => mret (guilds c !! id)
  | DiscordJs => throw TypeError
  end.

(** [guild.channels.cache.get(id)] and [guild.channels.get(id)] *)
Definition channels_get (guild : option Guild) (id : string) : method (option Channel) :=
  guild ← deref guild;
  mret (channels guild !! id).

(** [permissions.has(name)] *)
Definition has (granted : list string) (name : string) : bool :=
  bool_decide (name ∈ granted).

(** [channel.permissionsFor(user).has(name)] and
    [channel.permissionsOf(user).has(name)] *)
Definition has_permission (channel : Channel) (user name : string) : method bool :=
  granted ← deref (permissions channel !! user);
  mret (has granted name).

(** [!a || !b], where [b] is evaluated only when [a] holds *)
Definition lacks_either (a b : method bool) : method bool :=
  x ← a;
  if x : bool then y ← b; mret (negb y) else mret true.

(** *** Methods *)

Definition sendWS (packet : Packet) : method () :=
  e ← gets engine;
  c ← gets client;
  match e with
  | discordjs =>
      match sdk c with
      | DiscordJs =>
          if ws_send c then output (ws_send_ packet)
          else
            guild ← guilds_cache_get (vs_guild_id (d packet));
            deref guild;;
            output (shard_send (vs_guild_id (d packet)) packet)
      | Eris => throw TypeError
      end
  | eris =>
      guild ← guilds_get (vs_guild_id (d packet));
      deref guild;;
      output (shard_sendWS (vs_guild_id (d packet)) (op packet) (d packet))
  end.

Record ReturnPlayerOptions := {
  rp_host : string;
  rp_guildID : string;
  rp_channelID : string;
}.

Definition no_server (host : string) : string :=
  "No Lavalink server found at host " +:+ host +:+ ". Please provide a valid host.".

Definition returnPlayer (options : ReturnPlayerOptions) : method nat :=
  player ← gets (λ w, players w !! rp_guildID options);
  match player with
  | Some player => mret player
  | None =>
      server ← gets (λ w, serversStorage w !! rp_host options);
      match server with
      | None => throw (Error (no_server (rp_host options)))
      | Some server =>
          player ← new_Player {| Player.opt_server := server;
                                 Player.opt_guildID := rp_guildID options;
                                 Player.opt_channelID := rp_channelID options |};
          modify (λ w, set_players (<[rp_guildID options := player]> (players w)) w);;
          mret player
      end
  end.

Record JoinOptions := {
  host : string;
  guildID : string;
  channelID : string;
  muted : value;
  deafen : value;
}.

Definition channel_not_found : exn :=
  Error "Channel not found. Please verify that the channel exists and is a voice channel.".

Definition no_permission : exn :=
  Error "I don't have the right permissions to connect and speak in this voice channel.".

(** The body of [case 'discordjs'] *)
Definition join_discordjs (options : JoinOptions) : method () :=
  guild ← guilds_cache_get (guildID options);
  channel ← channels_get guild (channelID options);
  match channel with
  | None => throw channel_not_found
  | Some channel =>
      throw_if (negb (strict_eq (type channel) (VStr "voice"))) channel_not_found;;
      c ← gets client;
      lacks ← lacks_either (has_permission channel (user_id c) "CONNECT")
                           (has_permission channel (user_id c) "SPEAK");
      throw_if lacks no_permission
  end.

(** The body of [case 'eris'] *)
Definition join_eris (options : JoinOptions) : method () :=
  guild ← guilds_get (guildID options);
  channel ← channels_get guild (channelID options);
  match channel with
  | None => throw channel_not_found
  | Some channel =>
      throw_if (negb (strict_eq (type channel) (of_Z 2))) channel_not_found;;
      c ← gets client;
      lacks ← lacks_either (has_permission channel (user_id c) "voiceConnect")
                           (has_permission channel (user_id c) "voiceSpeak");
      throw_if lacks no_permission
  end.

(** The [switch (this.engine)] of [join].  It has no [break]:
    [case 'discordjs'] runs into [case 'eris']. *)
Definition join_switch (options : JoinOptions) : method () :=
  e ← gets engine;
  match e with
  | discordjs => join_discordjs options;; join_eris options
  | eris => join_eris options
  end.

(** [options] is [None] for an argument that is falsy or not an object.
    An [async] method rejects its promise where the model throws. *)
Definition join (options : option JoinOptions) : method nat :=
  match options with
  | None => throw (Error "Please provide valid options to join a voice channel!")
  | Some options =>
      player ← gets (λ w, players w !! guildID options);
      match player with
      | Some player => mret player
      | None =>
          join_switch options;;
          sendWS {| op := 4;
                    d := {| vs_guild_id := guildID options;
                            vs_channel_id := VStr (channelID options);
                            self_mute := muted options;
                            self_deaf := deafen options |} |};;
          returnPlayer {| rp_host := host options;
                          rp_guildID := guildID options;
                          rp_channelID := channelID options |}
      end
  end.

(** The argument as a value: [undefined] when it is missing. *)
Definition arg (guildID : option string) : value :=
  from_option VStr VUndefined guildID.

(** A property key: a missing argument reads the key "undefined".  [leave]
    uses it on a truthy [guildID] only. *)
Definition key (guildID : option string) : string :=
  default "undefined" guildID.

(** The two [await]s wait on values that are no promises; the method runs
    to its end. *)
Definition leave (guildID : option string) : method bool :=
  throw_if (negb (truthy (arg guildID)))
    (Error "Please provide a valid guild ID to leave a voice channel!");;
  sendWS {| op := 4;
            d := {| vs_guild_id := key guildID;
                    vs_channel_id := VNull;
                    self_mute := VBool false;
                    self_deaf := VBool false |} |};;
  player ← gets (λ w, players w !! key guildID);
  match player with
  | None => mret false
  | Some player =>
      call player Player.removeAllListeners;;
      call player Player.stop;;
      call player Player.destroy;;
      modify (λ w, set_players (delete (key guildID) (players w)) w);;
      mret true
  end.

Definition voiceServerUpdate (packet : VoiceServerUpdate) : method () :=
  player ← gets (λ w, players w !! guild_id packet);
  match player with
  | None => mret ()
  | Some player =>
      e ← gets engine;
      guild ← match e with
              | discordjs => guilds_cache_get (guild_id packet)
              | eris => guilds_get (guild_id packet)
              end;
      match guild with
      | None => mret ()
      | Some guild =>
          c ← gets client;
          session ← match e with
                    | discordjs => deref (me guild)
                    | eris => deref (voiceStates guild !! user_id c)
                    end;
          call player (Player.connect session packet);;
          mret ()
      end
  end.

(** Every stored reference leads to a player of the guild it is stored
    under. *)
Definition wf (w : t) : Prop :=
  ∀ g a, players w !! g = Some a →
         ∃ p, objects w !! a = Some p ∧ Player.guildID p = g.

End PlayerInstance.

(** ** Vocabulary of the statements *)

(** The inputs [setVolume] is specified to refuse.  A value is an integer
    when its numeric value is one: a number by itself, a string through
    [Number] as the source coerces it; [undefined], [null] and the booleans
    are no integers. *)
Definition integer (StringToNumber : string → number) (v : value) : bool :=
  match v with
  | VNum (Fin q) => is_integral q
  | VStr s =>
      match StringToNumber s with
      | Fin q => is_integral q
      | _ => false
      end
  | _ => false
  end.

(** A missing argument: [undefined], or [null] passed in its place. *)
Definition missing (v : value) : bool :=
  match v with
  | VUndefined | VNull => true
  | _ => false
  end.

(** Missing, not an integer, below 0, above 1000, or above 100 while
    [force] is not set. *)
Definition refused (StringToNumber : string → number) (v force : value) : bool :=
  missing v
  || negb (integer StringToNumber v)
  || lt StringToNumber v (of_Z 0)
  || gt StringToNumber v (of_Z 1000)
  || (gt StringToNumber v (of_Z 100) && negb (truthy force)).

(** The four guards of [setVolume], in source order: one of them fires. *)
Definition guarded (StringToNumber : string → number)
    (StringParseInt : string → option Z) (ExponentParseInt : Q → Z)
    (volume force : value) : bool :=
  negb (truthy volume)
  || (negb (truthy (Number StringToNumber volume))
      || negb (strict_eq (rem StringToNumber volume
                            (parseInt StringParseInt ExponentParseInt volume))
                         (of_Z 0)))
  || (lt StringToNumber volume (of_Z 0) || gt StringToNumber volume (of_Z 1000))
  || (gt StringToNumber volume (of_Z 100)
      && negb (truthy (default_param (VBool false) force))).

(** [sendWS] can hand a packet for guild [g] to the gateway: the client is
    of the SDK the engine names, and either discord.js offers
    [client.ws.send] or the client knows the guild, whose shard takes the
    packet. *)
Definition routable (w : PlayerInstance.t) (g : string) : bool :=
  match PlayerInstance.engine w, sdk (PlayerInstance.client w) with
  | PlayerInstance.discordjs, DiscordJs =>
      ws_send (PlayerInstance.client w)
      || bool_decide (is_Some (guilds (PlayerInstance.client w) !! g))
  | PlayerInstance.eris, Eris =>
      bool_decide (is_Some (guilds (PlayerInstance.client w) !! g))
  | _, _ => false
  end.

(** The guild is known to the chat client: the guild lookup of the engine
    finds it. *)
Definition known_guild (w : PlayerInstance.t) (id : string) : option Guild :=
  match PlayerInstance.engine w, sdk (PlayerInstance.client w) with
  | PlayerInstance.discordjs, DiscordJs | PlayerInstance.eris, Eris =>
      guilds (PlayerInstance.client w) !! id
  | _, _ => None
  end.

(** The session ID of the client's own voice state in a guild, where the
    engine's path to it exists. *)
Definition own_session (w : PlayerInstance.t) (guild : Guild) : option value :=
  match PlayerInstance.engine w with
  | PlayerInstance.discordjs => me guild
  | PlayerInstance.eris => voiceStates guild !! user_id (PlayerInstance.client w)
  end.

(** The log entry of a packet that [sendWS] hands to the gateway. *)
Definition routed (w : PlayerInstance.t) (packet : Packet) : Output :=
  match PlayerInstance.engine w with
  | PlayerInstance.discordjs =>
      if ws_send (PlayerInstance.client w) then ws_send_ packet
      else shard_send (vs_guild_id (d packet)) packet
  | PlayerInstance.eris =>
      shard_sendWS (vs_guild_id (d packet)) (op packet) (d packet)
  end.

(** The voice-state packets of [join] and [leave]. *)
Definition join_packet (options : PlayerInstance.JoinOptions) : Packet :=
  {| op := 4;
     d := {| vs_guild_id := PlayerInstance.guildID options;
             vs_channel_id := VStr (PlayerInstance.channelID options);
             self_mute := PlayerInstance.muted options;
             self_deaf := PlayerInstance.deafen options |} |}.

Definition leave_packet (g : string) : Packet :=
  {| op := 4;
     d := {| vs_guild_id := g; vs_channel_id := VNull;
             self_mute := VBool false; self_deaf := VBool false |} |}.

(** A computation that leaves the state as it found it. *)
Definition readonly {S A} (m : M S A) : Prop := ∀ s, (m s).2 = s.

(** A method that does not reassign [guildID]. *)
Definition keeps_guildID {A} (m : Player.method A) : Prop :=
  ∀ p l, Player.guildID (m (p, l)).2.1 = Player.guildID p.

(** The states an instance goes through: it starts without players, and
    moves by its own methods and by calls of methods on its players. *)
Inductive reachable : PlayerInstance.t → Prop :=
  | reach_new w :
      PlayerInstance.players w = ∅ → reachable w
  | reach_join options w :
      reachable w → reachable (PlayerInstance.join options w).2
  | reach_leave guildID w :
      reachable w → reachable (PlayerInstance.leave guildID w).2
  | reach_voiceServerUpdate packet w :
      reachable w → reachable (PlayerInstance.voiceServerUpdate packet w).2
  | reach_call {A} a (m : Player.method A) w :
      keeps_guildID m → reachable w → reachable (PlayerInstance.call a m w).2.

(** What [leave] does to a stored player: [removeAllListeners], [stop]
    ([destroy] writes no field). *)
Definition left (p : Player.t) : Player.t :=
  Player.set_currentTrack VUndefined
    (Player.set_isPlaying false (Player.set_listeners [] p)).

(** *** Sample objects *)

Module Sample.

Definition player : Player.t :=
  Player.constructor
    {| Player.opt_server := 0; Player.opt_guildID := "81384788765712384";
       Player.opt_channelID := "381870553235193857" |}.

Definition playing : Player.t :=
  Player.set_isPlaying true (Player.set_currentTrack (VStr "QAAAjQIAJVJpY2sgQXN0bGV5") player).

Definition track_end (reason : string) : Message :=
  {| msg_op := VStr "event"; msg_guildId := "81384788765712384";
     msg_type := VStr "TrackEndEvent"; msg_reason := VStr reason |}.

(** An engine whose conversions of strings are trivial; the samples pass
    numbers only. *)
Definition StringToNumber (s : string) : number := NaN.
Definition StringParseInt (s : string) : option Z := None.
Definition ExponentParseInt (q : Q) : Z := 1.

Definition setVolume : value → value → Player.method Player.returned :=
  Player.setVolume StringToNumber StringParseInt ExponentParseInt.

Definition voice (me_ : string) : Channel :=
  {| type := of_Z 2;
     permissions := {[ me_ := ["voiceConnect"; "voiceSpeak"] ]} |}.

Definition guild (sessions : gmap string value) : Guild :=
  {| channels := {[ "381870553235193857" := voice "276060004262477825" ]};
     me := None;
     voiceStates := sessions |}.

Definition eris_client (known : gmap string Guild) : Client :=
  {| sdk := Eris; user_id := "276060004262477825"; ws_send := false;
     guilds := known |}.

(** A fresh instance on an Eris client that knows one guild, with one
    Lavalink server. *)
Definition instance (sessions : gmap string value) : PlayerInstance.t :=
  {| PlayerInstance.client := eris_client {[ "81384788765712384" := guild sessions ]};
     PlayerInstance.engine := PlayerInstance.eris;
     PlayerInstance.serversStorage := {[ "localhost" := 0%nat ]};
     PlayerInstance.players := ∅;
     PlayerInstance.objects := ∅;
     PlayerInstance.log := [] |}.

(** The same instance on a client that knows no guild. *)
Definition stranger : PlayerInstance.t :=
  {| PlayerInstance.client := eris_client ∅;
     PlayerInstance.engine := PlayerInstance.eris;
     PlayerInstance.serversStorage := {[ "localhost" := 0%nat ]};
     PlayerInstance.players := ∅;
     PlayerInstance.objects := ∅;
     PlayerInstance.log := [] |}.

Definition options : PlayerInstance.JoinOptions :=
  {| PlayerInstance.host := "localhost";
     PlayerInstance.guildID := "81384788765712384";
     PlayerInstance.channelID := "381870553235193857";
     PlayerInstance.muted := VBool false;
     PlayerInstance.deafen := VBool false |}.

Definition packet : VoiceServerUpdate :=
  {| guild_id := "81384788765712384"; token := VStr "my_token";
     endpoint := VStr "smart.loyal.discord.gg" |}.

(** The voice states of a guild in which the client has a voice session. *)
Definition sessions : gmap string value :=
  {[ "276060004262477825" := VStr "a1b2c3" ]}.

(** The instance after [join(options)]. *)
Definition joined (sessions : gmap string value) : PlayerInstance.t :=
  (PlayerInstance.join (Some options) (instance sessions)).2.

End Sample.

(** ** The interface of a player, call by call *)

(** The guild a command is addressed to. *)
Definition guild_of (c : Command) : string :=
  match c with
  | voiceUpdate g _ _ | play_ g _ | stop_ g | pause_ g _ | volume_ g _
  | destroy_ g => g
  end.

(** The effects a player may add to its log: events, and commands for its
    own guild. *)
Definition own (g : string) (e : Effect) : Prop :=
  match e with
  | Send msg _ => guild_of msg = g
  | Emit _ _ => True
  end.

(** An integer above 0 and up to 1000, by numeric value. *)
Definition in_range (StringToNumber : string → number) (v : value) : bool :=
  integer StringToNumber v
  && lt StringToNumber (of_Z 0) v
  && negb (gt StringToNumber v (of_Z 1000)).

Module Api.

(** The methods of [class Player], with their arguments. *)
Inductive Call :=
  | connect (session : value) (event : VoiceServerUpdate)
  | disconnect (reason : value)
  | getQueue
  | play (now : Z) (track : value) (options : option PlayOptions)
  | stop
  | pause (paused : value)
  | resume
  | skip
  | setVolume (volume force : value)
  | destroy
  | eventEmitter (message : Message).

Section Exec.

Variable StringToNumber : string → number.
Variable StringParseInt : string → option Z.
Variable ExponentParseInt : Q → Z.

(** One call, its result dropped. *)
Definition exec (c : Call) : Player.method () :=
  match c with
  | connect session event => Player.connect session event;; mret ()
  | disconnect reason => Player.disconnect reason;; mret ()
  | getQueue => Player.getQueue;; mret ()
  | play now track options => Player.play now track options;; mret ()
  | stop => Player.stop;; mret ()
  | pause paused => Player.pause paused;; mret ()
  | resume => Player.resume;; mret ()
  | skip => Player.skip;; mret ()
  | setVolume volume force =>
      Player.setVolume StringToNumber StringParseInt ExponentParseInt volume force;;
      mret ()
  | destroy => Player.destroy;; mret ()
  | eventEmitter message => Player.eventEmitter message;; mret ()
  end.

(** A sequence of calls by a caller that goes on after an exception: each
    call runs on the state the one before left. *)
Definition exec_all (calls : list Call) (s : Player.t * list Effect) :
    Player.t * list Effect :=
  foldl (λ s c, (exec c s).2) s calls.

End Exec.

End Api.

(** ** [PlayerInstance.createServer] and [PlayerInstance.deleteServer] *)

Module Servers.

Record LavalinkServerOptions := {
  host : string;
  port : value;
  password : value;
}.

(** A [LavalinkWebsocket] object: the options it was made with, and the
    event name of every listener registered on it. *)
Record LavalinkWebsocket := {
  options : LavalinkServerOptions;
  listeners : list string;
}.

(** A [PlayerInstance] together with the [LavalinkWebsocket] objects made
    so far; [serversStorage] holds references into [websockets]. *)
Record t := {
  instance : PlayerInstance.t;
  websockets : gmap nat LavalinkWebsocket;
}.

Abbreviation method := (M t).

Definition set_instance (w : PlayerInstance.t) (s : t) : t :=
  {| instance := w; websockets := websockets s |}.

Definition set_websockets (h : gmap nat LavalinkWebsocket) (s : t) : t :=
  {| instance := instance s; websockets := h |}.

Definition set_serversStorage (m : gmap string nat) (w : PlayerInstance.t) :
    PlayerInstance.t :=
  {| PlayerInstance.client := PlayerInstance.client w;
     PlayerInstance.engine := PlayerInstance.engine w;
     PlayerInstance.serversStorage := m;
     PlayerInstance.players := PlayerInstance.players w;
     PlayerInstance.objects := PlayerInstance.objects w;
     PlayerInstance.log := PlayerInstance.log w |}.

(** A method of [PlayerInstance] run on the instance. *)
Definition lift {A} (m : PlayerInstance.method A) : method A := λ s,
  let '(r, w) := m (instance s) in (r, set_instance w s).

(** Modelled from the spec: [new LavalinkWebsocket(this, options)], of the
    class [LavalinkWebsocket] whose file is missing.  The spec describes
    the class as a single connection wrapper; the constructor yields a new
    object, on which no listener is registered yet. *)
Definition new_LavalinkWebsocket (options : LavalinkServerOptions) : method nat :=
  λ s,
    let server := fresh (dom (websockets s)) in
    (Return server,
     set_websockets
       (<[server := {| options := options; listeners := [] |}]> (websockets s)) s).

(** [server.on(event, handler)] *)
Definition on (server : nat) (event : string) : method () :=
  modify (λ s,
    set_websockets
      (alter (λ ws, {| options := options ws;
                       listeners := listeners ws ++ [event] |})
         server (websockets s)) s).

(** [server.removeAllListeners()] *)
Definition removeAllListeners (server : nat) : method () :=
  modify (λ s,
    set_websockets
      (alter (λ ws, {| options := options ws; listeners := [] |})
         server (websockets s)) s).

Definition createServer (options : LavalinkServerOptions) : method nat :=
  server ← new_LavalinkWebsocket options;
  on server "error";;
  on server "message";;
  modify (λ s,
    set_instance
      (set_serversStorage
         (<[host options := server]> (PlayerInstance.serversStorage (instance s)))
         (instance s)) s);;
  mret server.

Definition deleteServer (options : LavalinkServerOptions) : method bool :=
  server ← gets (λ s, PlayerInstance.serversStorage (instance s) !! host options);
  match server with
  | None => mret false
  | Some server =>
      removeAllListeners server;;
      modify (λ s,
        set_instance
          (set_serversStorage
             (delete (host options) (PlayerInstance.serversStorage (instance s)))
             (instance s)) s);;
      mret true
  end.

End Servers.

(** ** [index.js] *)

Module Index.

(** The two packages as [require] finds them: [None] when the package is
    not installed, otherwise the truth value of what it exports. *)
Record Packages := {
  discord_js : option bool;
  eris : option bool;
}.

(** [require(name)] *)
Definition require (name : string) (package : option bool) : M () bool :=
  match package with
  | Some exports => mret exports
  | None => throw (Error ("Cannot find module '" +:+ name +:+ "'"))
  end.

(** The guard at the head of the file; [&&] asks for the second package
    only when the first one is truthy.  The exports of the file follow
    it. *)
Definition guard (packages : Packages) : M () () :=
  first ← require "discord.js" (discord_js packages);
  both ← (if first : bool then require "eris" (eris packages) else mret false);
  throw_if both
    (Error "You can't have Discord.js and Eris installed. Please choose one library only.").

End Index.

(** *** More sample objects *)

Module Scene.

(** A discord.js client that knows the sample guild, with a voice channel
    in which the client may connect and speak. *)
Definition discordjs_instance : PlayerInstance.t :=
  {| PlayerInstance.client :=
       {| sdk := DiscordJs; user_id := "276060004262477825"; ws_send := false;
          guilds :=
            {[ "81384788765712384" :=
                 {| channels :=
                      {[ "381870553235193857" :=
                           {| type := VStr "voice";
                              permissions :=
                                {[ "276060004262477825" := ["CONNECT"; "SPEAK"] ]} |} ]};
                    me := Some (VStr "a1b2c3");
                    voiceStates := ∅ |} ]} |};
     PlayerInstance.engine := PlayerInstance.discordjs;
     PlayerInstance.serversStorage := {[ "localhost" := 0%nat ]};
     PlayerInstance.players := ∅;
     PlayerInstance.objects := ∅;
     PlayerInstance.log := [] |}.

(** The sample options with a host no server is registered for. *)
Definition elsewhere : PlayerInstance.JoinOptions :=
  {| PlayerInstance.host := "lavalink.example.org";
     PlayerInstance.guildID := "81384788765712384";
     PlayerInstance.channelID := "381870553235193857";
     PlayerInstance.muted := VBool false;
     PlayerInstance.deafen := VBool false |}.

Definition local : Servers.LavalinkServerOptions :=
  {| Servers.host := "localhost"; Servers.port := of_Z 2333;
     Servers.password := VStr "youshallnotpass" |}.

(** An instance without servers and without players. *)
Definition bare : Servers.t :=
  {| Servers.instance :=
       {| PlayerInstance.client := Sample.eris_client
                                     {[ "81384788765712384" := Sample.guild ∅ ]};
          PlayerInstance.engine := PlayerInstance.eris;
          PlayerInstance.serversStorage := ∅;
          PlayerInstance.players := ∅;
          PlayerInstance.objects := ∅;
          PlayerInstance.log := [] |};
     Servers.websockets := ∅ |}.

End Scene.

(** * Properties *)

(** Running a method: its definition is unfolded and the monad computes. *)
Create HintDb method discriminated.

#[global] Hint Unfold
  Player.read Player.write Player.server_send Player.listenerCount Player.emit
  Player.removeAllListeners Player.connect Player.stop Player.disconnect
  Player.play Player.pause Player.resume Player.skip Player.destroy
  Player.eventEmitter : method.

Ltac run :=
  autounfold with method;
  cbv [mbind M_bind mret M_ret get gets modify throw throw_if fst snd].

(** ** Numbers *)

Lemma trunc_Qeq (a b : Q) : (a == b)%Q → trunc a = trunc b.
Proof.
  unfold Qeq, trunc. intros H.
  rewrite <- (Z.quot_mul_cancel_r (Qnum a) (Z.pos (Qden a)) (Z.pos (Qden b))) by lia.
  rewrite H, (Z.mul_comm (Z.pos (Qden a))).
  apply Z.quot_mul_cancel_r; lia.
Qed.

Lemma trunc_inject_Z (z : Z) : trunc (inject_Z z) = z.
Proof. unfold trunc. simpl. apply Z.quot_1_r. Qed.

Lemma is_integral_inject_Z (q : Q) (z : Z) :
  (q == inject_Z z)%Q → is_integral q = true.
Proof.
  unfold Qeq, is_integral. simpl. intros H.
  rewrite Z.mul_1_r in H. rewrite H.
  apply Z.eqb_eq, Z.rem_mul. lia.
Qed.

(** A number that is no integer leaves a remainder with every integer. *)
Lemma rem_not_integral (q : Q) (y t : Z) :
  is_integral q = false →
  Qeq_bool (q - inject_Z y * inject_Z t) 0 = false.
Proof.
  intros Hq. destruct (Qeq_bool _ _) eqn:E; [|done].
  apply Qeq_bool_iff in E.
  rewrite (is_integral_inject_Z q (y * t)) in Hq; [done|].
  rewrite inject_Z_mult.
  rewrite <- (Qplus_0_l (inject_Z y * inject_Z t)), <- E. ring.
Qed.

(** [q % q] is [0] for a non-zero [q]. *)
Lemma rem_self (q : Q) :
  Qeq_bool q 0 = false →
  Qeq_bool (q - q * inject_Z (trunc (q / q))) 0 = true.
Proof.
  intros Hq. apply Qeq_bool_neq in Hq. apply Qeq_bool_iff.
  rewrite (trunc_Qeq (q / q) 1) by (apply Qmult_inv_r, Hq).
  change (inject_Z (trunc 1)) with 1%Q. ring.
Qed.

Lemma Qeq_bool_inject_Z (x y : Z) :
  Qeq_bool (inject_Z x) (inject_Z y) = bool_decide (x = y).
Proof.
  case_bool_decide as H.
  - subst. apply Qeq_bool_iff. reflexivity.
  - destruct (Qeq_bool _ _) eqn:E; [|done].
    apply Qeq_bool_iff in E.
    apply (proj1 (inject_Z_injective x y)) in E. contradiction.
Qed.

Lemma Qle_bool_inject_Z (x y : Z) :
  Qle_bool (inject_Z x) (inject_Z y) = bool_decide (x ≤ y).
Proof.
  case_bool_decide as H.
  - apply Qle_bool_iff. rewrite <- Zle_Qle. done.
  - destruct (Qle_bool _ _) eqn:E; [|done].
    apply Qle_bool_iff in E. rewrite <- Zle_Qle in E. lia.
Qed.

Lemma Qlt_bool_inject_Z (x y : Z) :
  Qlt_bool (inject_Z x) (inject_Z y) = bool_decide (x < y).
Proof.
  unfold Qlt_bool. rewrite Qle_bool_inject_Z, Qeq_bool_inject_Z.
  repeat case_bool_decide; simpl; lia.
Qed.

(** An integer below [10^21] prints in decimal notation. *)
Lemma decimal_notation_inject_Z (z : Z) :
  Z.abs z < 10 ^ 21 → decimal_notation (inject_Z z) = true.
Proof.
  intros Hz. unfold decimal_notation.
  change (Qabs (inject_Z z)) with (inject_Z (Z.abs z)).
  change 0%Q with (inject_Z 0).
  rewrite Qlt_bool_inject_Z, Qeq_bool_inject_Z.
  repeat case_bool_decide; try lia; simpl; try reflexivity.
  rewrite andb_true_r. apply Qle_bool_iff.
  unfold Qle. simpl. lia.
Qed.

(** ** [Player.setVolume] *)

Section SetVolumeFacts.

Variable StringToNumber : string → number.
Variable StringParseInt : string → option Z.
Variable ExponentParseInt : Q → Z.

Abbreviation setVolume := (Player.setVolume StringToNumber StringParseInt ExponentParseInt).
Abbreviation Number := (Number StringToNumber).
Abbreviation parseInt := (parseInt StringParseInt ExponentParseInt).
Abbreviation rem := (rem StringToNumber).
Abbreviation lt := (lt StringToNumber).
Abbreviation gt := (gt StringToNumber).

Abbreviation fires := (guarded StringToNumber StringParseInt ExponentParseInt).

(** A guard that fires throws before anything is sent or written. *)
Lemma setVolume_guarded volume force p l :
  fires volume force = true →
  ∃ msg, setVolume volume force (p, l) = (Throw (Error msg), (p, l)).
Proof.
  unfold guarded, Player.setVolume, throw_if.
  repeat match goal with
    | |- context [if ?c then throw _ else mret ()] =>
        destruct c; [intros _; eexists; reflexivity|]
    end.
  done.
Qed.

(** When no guard fires, the command is sent and the volume is stored. *)
Lemma setVolume_unguarded volume force p l :
  fires volume force = false →
  setVolume volume force (p, l) =
    (Return Player.This,
     (Player.set_state_volume volume p,
      l ++ [Send (volume_ (Player.guildID p) volume) None])).
Proof.
  unfold guarded, Player.setVolume, throw_if.
  repeat match goal with
    | |- context [if ?c then throw _ else mret ()] => destruct c; [done|]
    end.
  reflexivity.
Qed.

(** The integrality guard fires on every number that is no integer,
    whatever integer [parseInt] reads. *)
Lemma rem_guard_fires (q : Q) (d : value) :
  is_integral q = false →
  (d = VNum NaN ∨ ∃ z, d = of_Z z) →
  strict_eq (VNum (num_rem (Fin q) (ToNumber StringToNumber d))) (of_Z 0) = false.
Proof.
  intros Hq [->|[z ->]]; [done|]. simpl.
  destruct (Qeq_bool (inject_Z z) 0); [done|]. simpl.
  by apply (rem_not_integral q z).
Qed.

Lemma parseInt_integer (v : value) :
  parseInt v = VNum NaN ∨ ∃ z, parseInt v = of_Z z.
Proof.
  destruct v as [| | |[]|s]; simpl; eauto.
  destruct (StringParseInt s); eauto.
Qed.

Lemma non_integer_guarded (v : value) :
  integer StringToNumber v = false →
  negb (truthy v) = true
  ∨ negb (truthy (Number v))
      || negb (strict_eq (rem v (parseInt v)) (of_Z 0)) = true.
Proof.
  intros H. destruct (truthy v) eqn:Hv; [right|by left].
  apply orb_true_iff.
  destruct v as [| | [] | [q| |] | s]; try done; try (by right).
  - right. apply negb_true_iff.
    apply (rem_guard_fires q); [done|apply parseInt_integer].
  - unfold Js.rem, Js.Number. cbn [ToNumber]. cbn [integer] in H.
    destruct (StringToNumber s) as [q| |] eqn:Hs.
    + right. apply negb_true_iff.
      apply (rem_guard_fires q); [done|apply parseInt_integer].
    + left. reflexivity.
    + right. reflexivity.
Qed.

Lemma truthy_of_Z (z : Z) : truthy (of_Z z) = bool_decide (z ≠ 0).
Proof.
  unfold of_Z, truthy. change 0%Q with (inject_Z 0).
  rewrite Qeq_bool_inject_Z. by repeat case_bool_decide.
Qed.

Lemma lt_of_Z (x y : Z) : lt (of_Z x) (of_Z y) = bool_decide (x < y).
Proof. apply Qlt_bool_inject_Z. Qed.

Lemma gt_of_Z (x y : Z) : gt (of_Z x) (of_Z y) = bool_decide (y < x).
Proof. apply Qlt_bool_inject_Z. Qed.

Lemma parseInt_of_Z (z : Z) : Z.abs z < 10 ^ 21 → parseInt (of_Z z) = of_Z z.
Proof.
  intros Hz. unfold of_Z at 1, Js.parseInt.
  by rewrite decimal_notation_inject_Z, trunc_inject_Z.
Qed.

Lemma rem_of_Z_self (z : Z) :
  z ≠ 0 → strict_eq (rem (of_Z z) (of_Z z)) (of_Z 0) = true.
Proof.
  intros Hz. unfold Js.rem, of_Z. cbn [ToNumber strict_eq num_eq num_rem].
  assert (Qeq_bool (inject_Z z) 0 = false) as Hq.
  { change 0%Q with (inject_Z 0). rewrite Qeq_bool_inject_Z. by case_bool_decide. }
  rewrite Hq. cbn [num_eq]. by apply rem_self.
Qed.

(** An integer from 1 to 1000 is accepted, above 100 when [force] is set. *)
Lemma setVolume_in_range (z : Z) (force : value) p l :
  1 ≤ z ≤ 1000 →
  z ≤ 100 ∨ truthy force = true →
  setVolume (of_Z z) force (p, l) =
    (Return Player.This,
     (Player.set_state_volume (of_Z z) p,
      l ++ [Send (volume_ (Player.guildID p) (of_Z z)) None])).
Proof.
  intros Hz Hf. apply setVolume_unguarded. unfold guarded, Js.Number.
  cbn [ToNumber of_Z]. fold (of_Z z).
  rewrite parseInt_of_Z, rem_of_Z_self, truthy_of_Z, lt_of_Z, !gt_of_Z by lia.
  assert (bool_decide (100 < z)
          && negb (truthy (default_param (VBool false) force)) = false) as ->.
  { destruct Hf as [?|Hf]; [by rewrite bool_decide_eq_false_2 by lia|].
    destruct force; simpl in *; try done; by rewrite Hf, andb_false_r. }
  by repeat case_bool_decide; try lia.
Qed.

(** C1: [setVolume(v, true)] succeeds for every integer [v] from 0 to 1000.
    The code departs from it at [v = 0]: the first guard, [!volume], takes
    the number [0] for a missing argument and throws, before the range guard
    that admits [0] is reached; nothing is sent and the volume is not
    stored. *)
Theorem setVolume_zero_throws p l :
  setVolume (of_Z 0) (VBool true) (p, l) =
    (Throw (Error "Please provide a valid volume value!"), (p, l)).
Proof. reflexivity. Qed.

(** C2: for every input that is missing, not an integer, below 0, above
    1000, or above 100 while [force] is not set, [setVolume] throws an
    error, and the player is as before: the stored volume keeps its value
    and no command is sent. *)
Theorem setVolume_refused_throws volume force p l :
  refused StringToNumber volume force = true →
  ∃ msg, setVolume volume force (p, l) = (Throw (Error msg), (p, l)).
Proof.
  intros H. apply setVolume_guarded. unfold guarded.
  unfold refused in H. repeat apply orb_prop in H as [H|H].
  - by destruct volume.
  - apply negb_true_iff in H.
    apply orb_true_iff; left. apply orb_true_iff; left.
    apply orb_true_iff. by apply non_integer_guarded.
  - apply orb_true_iff; left. apply orb_true_iff; right.
    apply orb_true_iff; by left.
  - apply orb_true_iff; left. apply orb_true_iff; right.
    apply orb_true_iff; by right.
  - apply orb_true_iff; right.
    apply andb_prop in H as [-> H]. apply negb_true_iff in H.
    by destruct force; simpl in *; rewrite ?H.
Qed.

End SetVolumeFacts.

(** [setVolume(1.5, true)] is refused as not an integer. *)
Lemma setVolume_refused_throws_witness :
  refused Sample.StringToNumber (VNum (Fin (3 # 2))) (VBool true) = true
  ∧ ∃ msg, Sample.setVolume (VNum (Fin (3 # 2))) (VBool true) (Sample.player, [])
           = (Throw (Error msg), (Sample.player, [])).
Proof.
  split; [reflexivity|].
  apply (setVolume_refused_throws Sample.StringToNumber Sample.StringParseInt
           Sample.ExponentParseInt (VNum (Fin (3 # 2))) (VBool true)
           Sample.player []).
  reflexivity.
Defined.

(** ** [Player]: playback *)

(** C3: [play(track, options)] throws if and only if [track] is falsy;
    otherwise it sends a [play] command with the guild ID of the player and
    the track, sets [currentTrack] to the track and [isPlaying] to true. *)
Theorem play_spec (now : Z) (track : value) (options : option PlayOptions) p l :
  (throws (Player.play now track options (p, l)) ↔ truthy track = false)
  ∧ (truthy track = true →
     ∃ p' opts,
       Player.play now track options (p, l) =
         (Return Player.This,
          (p', l ++ [Send (play_ (Player.guildID p) track) (Some opts)]))
       ∧ Player.currentTrack p' = track
       ∧ Player.isPlaying p' = true
       ∧ Player.guildID p' = Player.guildID p).
Proof.
  unfold throws. run. destruct (truthy track); cbn.
  - split.
    + split; [intros [e He]; discriminate He|done].
    + intros _. by eexists _, _.
  - split; [|done]. split; [done|]. intros _. by eexists.
Qed.

Lemma play_spec_witness :
  truthy (VStr "QAAAjQIAJVJpY2sgQXN0bGV5") = true
  ∧ (∃ p' opts,
      Player.play 1607731200000 (VStr "QAAAjQIAJVJpY2sgQXN0bGV5") None
        (Sample.player, []) =
        (Return Player.This,
         (p', [] ++ [Send (play_ (Player.guildID Sample.player)
                             (VStr "QAAAjQIAJVJpY2sgQXN0bGV5")) (Some opts)]))
      ∧ Player.currentTrack p' = VStr "QAAAjQIAJVJpY2sgQXN0bGV5"
      ∧ Player.isPlaying p' = true
      ∧ Player.guildID p' = Player.guildID Sample.player)
  ∧ truthy VUndefined = false
  ∧ throws (Player.play 1607731200000 VUndefined None (Sample.player, [])).
Proof.
  split; [reflexivity|]. split.
  - apply (proj2 (play_spec 1607731200000 (VStr "QAAAjQIAJVJpY2sgQXN0bGV5") None
                    Sample.player [])).
    reflexivity.
  - split; [reflexivity|].
    apply (proj1 (play_spec 1607731200000 VUndefined None Sample.player [])).
    reflexivity.
Defined.

(** C7: [stop()] always sends a [stop] command for the guild of the player,
    sets [isPlaying] to false and [currentTrack] to [undefined];
    [disconnect(reason)] reaches the same state through [stop], whose
    command precedes the [disconnect] event, and the write that follows the
    event changes nothing. *)
Theorem stop_disconnect_spec (reason : value) p l :
  let p' := Player.set_currentTrack VUndefined (Player.set_isPlaying false p) in
  Player.stop (p, l) =
    (Return Player.This, (p', l ++ [Send (stop_ (Player.guildID p)) None]))
  ∧ Player.isPlaying p' = false
  ∧ Player.currentTrack p' = VUndefined
  ∧ Player.disconnect reason (p, l) =
      (Return Player.This,
       (p', l ++ [Send (stop_ (Player.guildID p)) None;
                  Emit "disconnect" [AValue reason]]))
  ∧ (Player.disconnect reason (p, l)).2 =
      (Player.emit "disconnect" [AValue reason] (Player.stop (p, l)).2).2.
Proof.
  repeat split; run; by rewrite <- app_assoc.
Qed.

(** C8, as amended: [pause(p)] stores in [isPaused] the argument [p], or
    [true] when [p] is [undefined] (the default of the parameter), and in
    [isPlaying] the truth value of what it stored; so both equal [p] for a
    boolean [p]: [pause(true)] leaves [isPlaying] true and [pause(false)]
    leaves it false. *)
Theorem pause_spec (v : value) (b : bool) p l :
  let stored := default_param (VBool true) v in
  let after (x : value) := (Player.pause x (p, l)).2.1 in
  Player.pause v (p, l) =
    (Return Player.This,
     (Player.set_isPlaying (truthy stored) (Player.set_isPaused stored p),
      l ++ [Send (pause_ (Player.guildID p) stored) None]))
  ∧ Player.isPaused (after v) = stored
  ∧ Player.isPlaying (after v) = truthy stored
  ∧ Player.isPaused (after (VBool b)) = VBool b
  ∧ Player.isPlaying (after (VBool b)) = b
  ∧ Player.isPaused (after VUndefined) = VBool true
  ∧ Player.isPlaying (after VUndefined) = true.
Proof.
  repeat split; run; cbn; by rewrite ?negb_involutive.
Qed.

(** C8 fails for a missing argument: after [pause(undefined)] both
    [isPaused] and [isPlaying] are true, and [Boolean(undefined)] is false;
    after [pause(null)], [isPaused] is [null], not [Boolean(null)]. *)
Lemma pause_undefined_not_Boolean :
  ¬ (Player.isPaused (Player.pause VUndefined (Sample.player, [])).2.1
       = VBool (truthy VUndefined)
     ∧ Player.isPlaying (Player.pause VUndefined (Sample.player, [])).2.1
       = truthy VUndefined)
  ∧ ¬ (Player.isPaused (Player.pause VNull (Sample.player, [])).2.1
       = VBool (truthy VNull)).
Proof. split; [intros [H _]|intros H]; discriminate H. Qed.

(** C9: a [TrackEndEvent] leaves [currentTrack] and [isPlaying] as they
    are, whatever the reason; only [playing] and [track] are assigned (when
    the reason is not [REPLACED]), and [trackEnd] is emitted with the
    message. *)
Theorem trackEnd_frame (message : Message) p l :
  msg_type message = VStr "TrackEndEvent" →
  ∃ p' r,
    Player.eventEmitter message (p, l) =
      (Return r, (p', l ++ [Emit "trackEnd" [AMessage message]]))
    ∧ Player.currentTrack p' = Player.currentTrack p
    ∧ Player.isPlaying p' = Player.isPlaying p
    ∧ p' = (if strict_eq (msg_reason message) (VStr "REPLACED") then p
            else Player.set_track VNull (Player.set_playing (VBool false) p))
    ∧ Player.set_track (Player.track p) (Player.set_playing (Player.playing p) p')
      = p.
Proof.
  intros H. unfold Player.eventEmitter. rewrite H.
  cbn [strict_eq String.eqb Ascii.eqb Bool.eqb].
  destruct (strict_eq _ _); run; eexists _, _; repeat split; by destruct p.
Qed.

Lemma trackEnd_frame_witness :
  msg_type (Sample.track_end "FINISHED") = VStr "TrackEndEvent"
  ∧ ∃ p' r,
      Player.eventEmitter (Sample.track_end "FINISHED") (Sample.playing, []) =
        (Return r,
         (p', [] ++ [Emit "trackEnd" [AMessage (Sample.track_end "FINISHED")]]))
      ∧ Player.currentTrack p' = Player.currentTrack Sample.playing
      ∧ Player.isPlaying p' = Player.isPlaying Sample.playing
      ∧ p' = (if strict_eq (msg_reason (Sample.track_end "FINISHED"))
                   (VStr "REPLACED")
              then Sample.playing
              else Player.set_track VNull
                     (Player.set_playing (VBool false) Sample.playing))
      ∧ Player.set_track (Player.track Sample.playing)
          (Player.set_playing (Player.playing Sample.playing) p')
        = Sample.playing.
Proof.
  split; [reflexivity|].
  apply (trackEnd_frame (Sample.track_end "FINISHED") Sample.playing []).
  reflexivity.
Defined.

(** C10: [resume()] and [skip()] return [undefined], not the player, while
    [pause(false)] and [stop()], which they run, return the player. *)
Theorem resume_skip_return_undefined (s : Player.t * list Effect) :
  (Player.resume s).1 = Return (Player.Val VUndefined)
  ∧ (Player.skip s).1 = Return (Player.Val VUndefined)
  ∧ (Player.pause (VBool false) s).1 = Return Player.This
  ∧ (Player.stop s).1 = Return Player.This
  ∧ (Player.resume s).2 = (Player.pause (VBool false) s).2
  ∧ (Player.skip s).2 = (Player.stop s).2.
Proof. by destruct s. Qed.

(** ** The monad *)

Lemma bind_Return {S A B} (m : M S A) (f : A → M S B) s b s' :
  (m ≫= f) s = (Return b, s') ↔
  ∃ a s1, m s = (Return a, s1) ∧ f a s1 = (Return b, s').
Proof.
  unfold mbind, M_bind. destruct (m s) as [[a|e] s1]; split.
  - eauto.
  - by intros (? & ? & [= <- <-] & ?).
  - done.
  - by intros (? & ? & ? & ?).
Qed.

Lemma bind_step {S A B} (m : M S A) (f : A → M S B) s a s1 :
  m s = (Return a, s1) → (m ≫= f) s = f a s1.
Proof. unfold mbind, M_bind. by intros ->. Qed.

Lemma bind_abort {S A B} (m : M S A) (f : A → M S B) s e s1 :
  m s = (Throw e, s1) → (m ≫= f) s = (Throw e, s1).
Proof. unfold mbind, M_bind. by intros ->. Qed.

Lemma bind_readonly {S A B} (m : M S A) (f : A → M S B) s :
  readonly m →
  (m ≫= f) s = match (m s).1 with
               | Return a => f a s
               | Throw e => (Throw e, s)
               end.
Proof.
  intros H. unfold mbind, M_bind. specialize (H s).
  destruct (m s) as [[a|e] s1]; simpl in *; by subst.
Qed.

Lemma readonly_ret {S A} (a : A) : readonly (mret a : M S A).
Proof. done. Qed.

Lemma readonly_throw {S A} (e : exn) : readonly (throw e : M S A).
Proof. done. Qed.

Lemma readonly_gets {S A} (f : S → A) : readonly (gets f).
Proof. done. Qed.

Lemma readonly_throw_if {S} (c : bool) (e : exn) : readonly (throw_if c e : M S ()).
Proof. by destruct c. Qed.

Lemma readonly_bind {S A B} (m : M S A) (f : A → M S B) :
  readonly m → (∀ a, readonly (f a)) → readonly (m ≫= f).
Proof.
  intros Hm Hf s. rewrite bind_readonly by done.
  destruct (m s).1; [apply Hf|done].
Qed.

Create HintDb readonly.

#[global] Hint Resolve readonly_ret readonly_throw readonly_gets
  readonly_throw_if readonly_bind : readonly.

(** ** [PlayerInstance]: the checks of [join] read the client only *)

Lemma readonly_deref {A} (x : option A) : readonly (PlayerInstance.deref x).
Proof. destruct x; [apply readonly_ret|apply readonly_throw]. Qed.

#[global] Hint Resolve readonly_deref : readonly.

Lemma readonly_guilds_get id : readonly (PlayerInstance.guilds_get id).
Proof.
  unfold PlayerInstance.guilds_get. apply readonly_bind; [auto with readonly|].
  intros c. destruct (sdk c); auto with readonly.
Qed.

Lemma readonly_guilds_cache_get id : readonly (PlayerInstance.guilds_cache_get id).
Proof.
  unfold PlayerInstance.guilds_cache_get. apply readonly_bind; [auto with readonly|].
  intros c. destruct (sdk c); auto with readonly.
Qed.

Lemma readonly_channels_get guild id : readonly (PlayerInstance.channels_get guild id).
Proof. unfold PlayerInstance.channels_get. auto with readonly. Qed.

Lemma readonly_has_permission channel user name :
  readonly (PlayerInstance.has_permission channel user name).
Proof. unfold PlayerInstance.has_permission. auto with readonly. Qed.

#[global] Hint Resolve readonly_guilds_get readonly_guilds_cache_get
  readonly_channels_get readonly_has_permission : readonly.

Lemma readonly_lacks_either (a b : PlayerInstance.method bool) :
  readonly a → readonly b → readonly (PlayerInstance.lacks_either a b).
Proof.
  intros Ha Hb. unfold PlayerInstance.lacks_either.
  apply readonly_bind; [done|]. intros []; auto with readonly.
Qed.

#[global] Hint Resolve readonly_lacks_either : readonly.

Lemma readonly_join_eris options : readonly (PlayerInstance.join_eris options).
Proof.
  unfold PlayerInstance.join_eris.
  apply readonly_bind; [auto with readonly|]. intros guild.
  apply readonly_bind; [auto with readonly|]. intros [channel|];
    auto 10 with readonly.
Qed.

Lemma readonly_join_discordjs options :
  readonly (PlayerInstance.join_discordjs options).
Proof.
  unfold PlayerInstance.join_discordjs.
  apply readonly_bind; [auto with readonly|]. intros guild.
  apply readonly_bind; [auto with readonly|]. intros [channel|];
    auto 10 with readonly.
Qed.

(** ** [PlayerInstance.sendWS] *)

#[global] Hint Unfold
  PlayerInstance.output PlayerInstance.deref PlayerInstance.guilds_get
  PlayerInstance.guilds_cache_get : method.

(** The packet goes out when the gateway can be reached; otherwise the
    method throws a [TypeError] and nothing is sent. *)
Lemma sendWS_eq (packet : Packet) (w : PlayerInstance.t) :
  PlayerInstance.sendWS packet w =
    if routable w (vs_guild_id (d packet))
    then (Return (), PlayerInstance.set_log (PlayerInstance.log w ++ [routed w packet]) w)
    else (Throw TypeError, w).
Proof.
  unfold routable, routed, PlayerInstance.sendWS. run.
  destruct w as [[[] user [] known] [] servers stored objects log]; cbn;
    try reflexivity;
    by destruct (known !! vs_guild_id (d packet)).
Qed.

(** ** [PlayerInstance.join] *)

(** A stored player is returned as it is: nothing is created, nothing is
    sent. *)
Lemma join_stored (options : PlayerInstance.JoinOptions) (w : PlayerInstance.t) a :
  PlayerInstance.players w !! PlayerInstance.guildID options = Some a →
  PlayerInstance.join (Some options) w = (Return a, w).
Proof. intros H. unfold PlayerInstance.join. run. by rewrite H. Qed.

Lemma join_new (options : PlayerInstance.JoinOptions) (w : PlayerInstance.t) :
  PlayerInstance.players w !! PlayerInstance.guildID options = None →
  PlayerInstance.join (Some options) w =
    (PlayerInstance.join_switch options;;
     PlayerInstance.sendWS (join_packet options);;
     PlayerInstance.returnPlayer
       {| PlayerInstance.rp_host := PlayerInstance.host options;
          PlayerInstance.rp_guildID := PlayerInstance.guildID options;
          PlayerInstance.rp_channelID := PlayerInstance.channelID options |}) w.
Proof.
  intros H. unfold PlayerInstance.join.
  change ((gets (λ w, PlayerInstance.players w !! PlayerInstance.guildID options)
           ≫= ?f) w)
    with (f (PlayerInstance.players w !! PlayerInstance.guildID options) w).
  by rewrite H.
Qed.

(** A player that is not stored is created on the server of the host. *)
Lemma returnPlayer_new (options : PlayerInstance.ReturnPlayerOptions) w server :
  PlayerInstance.players w !! PlayerInstance.rp_guildID options = None →
  PlayerInstance.serversStorage w !! PlayerInstance.rp_host options = Some server →
  let a := fresh (dom (PlayerInstance.objects w)) in
  PlayerInstance.returnPlayer options w =
    (Return a,
     PlayerInstance.set_players
       (<[PlayerInstance.rp_guildID options := a]> (PlayerInstance.players w))
       (PlayerInstance.set_objects
          (<[a := Player.constructor
                    {| Player.opt_server := server;
                       Player.opt_guildID := PlayerInstance.rp_guildID options;
                       Player.opt_channelID := PlayerInstance.rp_channelID options |}]>
             (PlayerInstance.objects w)) w)).
Proof.
  intros Hp Hs. unfold PlayerInstance.returnPlayer. run.
  rewrite Hp. cbn. rewrite Hs. reflexivity.
Qed.

Lemma returnPlayer_no_server (options : PlayerInstance.ReturnPlayerOptions) w :
  PlayerInstance.players w !! PlayerInstance.rp_guildID options = None →
  PlayerInstance.serversStorage w !! PlayerInstance.rp_host options = None →
  PlayerInstance.returnPlayer options w =
    (Throw (Error (PlayerInstance.no_server (PlayerInstance.rp_host options))), w).
Proof.
  intros Hp Hs. unfold PlayerInstance.returnPlayer. run.
  rewrite Hp. cbn. by rewrite Hs.
Qed.

Lemma readonly_join_switch options : readonly (PlayerInstance.join_switch options).
Proof.
  unfold PlayerInstance.join_switch. apply readonly_bind; [apply readonly_gets|].
  intros []; [apply readonly_bind; [|intros _]|];
    auto using readonly_join_eris, readonly_join_discordjs.
Qed.

(** C4: [join] creates on the first successful call and is idempotent per
    guild.  A successful [join] for a guild without a stored player creates
    exactly one player, a new object on the server of the host, stores it
    under the guild ID and sends one voice-state packet; every later [join]
    with that guild ID, in any state where that player is still stored,
    returns the same player and changes nothing: no player is created and
    no packet is sent. *)
Theorem join_create_once (options : PlayerInstance.JoinOptions)
    (w w' : PlayerInstance.t) (a : nat) :
  PlayerInstance.players w !! PlayerInstance.guildID options = None →
  PlayerInstance.join (Some options) w = (Return a, w') →
  PlayerInstance.objects w !! a = None
  ∧ (∃ server,
       PlayerInstance.serversStorage w !! PlayerInstance.host options = Some server
       ∧ PlayerInstance.objects w' =
           <[a := Player.constructor
                    {| Player.opt_server := server;
                       Player.opt_guildID := PlayerInstance.guildID options;
                       Player.opt_channelID := PlayerInstance.channelID options |}]>
             (PlayerInstance.objects w))
  ∧ PlayerInstance.players w' =
      <[PlayerInstance.guildID options := a]> (PlayerInstance.players w)
  ∧ PlayerInstance.log w' = PlayerInstance.log w ++ [routed w (join_packet options)]
  ∧ PlayerInstance.join (Some options) w' = (Return a, w')
  ∧ ∀ options' w'',
      PlayerInstance.guildID options' = PlayerInstance.guildID options →
      PlayerInstance.players w'' !! PlayerInstance.guildID options = Some a →
      PlayerInstance.join (Some options') w'' = (Return a, w'').
Proof.
  intros Hnone Hjoin. rewrite join_new in Hjoin by done.
  rewrite bind_readonly in Hjoin by apply readonly_join_switch.
  destruct (PlayerInstance.join_switch options w).1; [|done].
  apply bind_Return in Hjoin as ([] & w1 & Hsend & Hret).
  rewrite sendWS_eq in Hsend.
  destruct (routable w _); [|done]. injection Hsend as <-.
  destruct (PlayerInstance.serversStorage w !! PlayerInstance.host options)
    as [server|] eqn:Hserver.
  - rewrite (returnPlayer_new _ _ server) in Hret by done.
    injection Hret as <- <-. cbn.
    assert (∀ options' w'',
      PlayerInstance.guildID options' = PlayerInstance.guildID options →
      PlayerInstance.players w'' !! PlayerInstance.guildID options =
        Some (fresh (dom (PlayerInstance.objects w))) →
      PlayerInstance.join (Some options') w'' =
        (Return (fresh (dom (PlayerInstance.objects w))), w'')) as Hlater.
    { intros options' w'' Hg Hstored. apply join_stored. by rewrite Hg. }
    repeat split; try done.
    + apply not_elem_of_dom, is_fresh.
    + by exists server.
    + apply Hlater; [done|]. cbn. apply lookup_insert_eq.
  - by rewrite returnPlayer_no_server in Hret.
Qed.

(** On an Eris client that knows the guild and its voice channel, where the
    client may connect and speak and a server is registered for the host,
    the first [join] succeeds. *)
Lemma join_eris_succeeds (options : PlayerInstance.JoinOptions)
    (w : PlayerInstance.t) guild channel granted server :
  PlayerInstance.engine w = PlayerInstance.eris →
  sdk (PlayerInstance.client w) = Eris →
  PlayerInstance.players w !! PlayerInstance.guildID options = None →
  guilds (PlayerInstance.client w) !! PlayerInstance.guildID options = Some guild →
  channels guild !! PlayerInstance.channelID options = Some channel →
  strict_eq (type channel) (of_Z 2) = true →
  permissions channel !! user_id (PlayerInstance.client w) = Some granted →
  "voiceConnect" ∈ granted → "voiceSpeak" ∈ granted →
  PlayerInstance.serversStorage w !! PlayerInstance.host options = Some server →
  ∃ w', PlayerInstance.join (Some options) w
        = (Return (fresh (dom (PlayerInstance.objects w))), w').
Proof.
  intros He Hsdk Hnone Hguild Hchannel Htype Hperm Hc Hs Hserver.
  rewrite join_new by done.
  assert (PlayerInstance.join_switch options w = (Return (), w)) as Hswitch.
  { unfold PlayerInstance.join_switch, PlayerInstance.join_eris,
      PlayerInstance.channels_get, PlayerInstance.lacks_either,
      PlayerInstance.has_permission.
    run. rewrite He, Hsdk, Hguild, Hchannel, Htype. cbn. rewrite Hperm. cbn.
    unfold PlayerInstance.has. by rewrite !bool_decide_eq_true_2 by done. }
  rewrite (bind_step _ _ _ _ _ Hswitch).
  pose proof (sendWS_eq (join_packet options) w) as Hsend.
  unfold routable in Hsend. rewrite He, Hsdk in Hsend.
  cbn [join_packet d vs_guild_id] in Hsend. rewrite Hguild in Hsend.
  rewrite (bind_step _ _ _ _ _ Hsend).
  rewrite (returnPlayer_new _ _ server) by done. by eexists.
Qed.

(** The two blocks of the [switch] ask for clients of different SDKs. *)
Lemma join_discordjs_sdk (options : PlayerInstance.JoinOptions) (w : PlayerInstance.t) :
  (PlayerInstance.join_discordjs options w).1 = Return () →
  sdk (PlayerInstance.client w) = DiscordJs.
Proof.
  unfold PlayerInstance.join_discordjs. run.
  by destruct (sdk (PlayerInstance.client w)).
Qed.

Lemma join_eris_sdk (options : PlayerInstance.JoinOptions) (w : PlayerInstance.t) :
  sdk (PlayerInstance.client w) = DiscordJs →
  PlayerInstance.join_eris options w = (Throw TypeError, w).
Proof. unfold PlayerInstance.join_eris. run. by intros ->. Qed.

(** With the engine [discordjs] a first [join] never succeeds: the
    [switch] runs from [case 'discordjs'] into [case 'eris'], and no client
    offers both [guilds.cache] and [guilds.get]. *)
Lemma join_discordjs_throws (options : PlayerInstance.JoinOptions)
    (w : PlayerInstance.t) :
  PlayerInstance.engine w = PlayerInstance.discordjs →
  PlayerInstance.players w !! PlayerInstance.guildID options = None →
  ∃ e, PlayerInstance.join (Some options) w = (Throw e, w).
Proof.
  intros He Hnone. rewrite join_new by done.
  assert (∃ e, PlayerInstance.join_switch options w = (Throw e, w)) as [e Hswitch].
  { unfold PlayerInstance.join_switch.
    rewrite (bind_step _ _ _ (PlayerInstance.engine w) w) by reflexivity.
    rewrite He.
    rewrite bind_readonly by apply readonly_join_discordjs.
    destruct (PlayerInstance.join_discordjs options w).1 as [[]|e] eqn:Hd;
      [|by eexists].
    exists TypeError. by apply join_eris_sdk, (join_discordjs_sdk options). }
  exists e. by apply bind_abort.
Qed.

Lemma join_create_once_witness :
  PlayerInstance.players (Sample.instance ∅) !! PlayerInstance.guildID Sample.options
    = None
  ∧ PlayerInstance.join (Some Sample.options) (Sample.instance ∅)
    = (Return 0%nat, Sample.joined ∅)
  ∧ PlayerInstance.players (Sample.joined ∅)
    = <[PlayerInstance.guildID Sample.options := 0%nat]>
        (PlayerInstance.players (Sample.instance ∅))
  ∧ PlayerInstance.join (Some Sample.options) (Sample.joined ∅)
    = (Return 0%nat, Sample.joined ∅).
Proof.
  assert (PlayerInstance.players (Sample.instance ∅)
            !! PlayerInstance.guildID Sample.options = None) as H1
    by reflexivity.
  assert (PlayerInstance.join (Some Sample.options) (Sample.instance ∅)
          = (Return 0%nat, Sample.joined ∅)) as H2
    by (vm_compute; reflexivity).
  destruct (join_create_once Sample.options (Sample.instance ∅) (Sample.joined ∅)
              0%nat H1 H2) as (_ & _ & H3 & _ & H4 & _).
  exact (conj H1 (conj H2 (conj H3 H4))).
Defined.

(** ** [PlayerInstance.leave] *)

(** A call on a reference that leads to an object. *)
Lemma call_eq {A} (a : nat) (m : Player.method A) (w : PlayerInstance.t) p :
  PlayerInstance.objects w !! a = Some p →
  PlayerInstance.call a m w =
    ((m (p, [])).1,
     PlayerInstance.set_log
       (PlayerInstance.log w ++ (ByPlayer a <$> (m (p, [])).2.2))
       (PlayerInstance.set_objects
          (<[a := (m (p, [])).2.1]> (PlayerInstance.objects w)) w)).
Proof.
  intros H. unfold PlayerInstance.call. rewrite H.
  by destruct (m (p, [])) as [r [p' out]].
Qed.

(** The four ways [leave] can go. *)
Lemma leave_eq (guildID : option string) (w : PlayerInstance.t) :
  let g := PlayerInstance.key guildID in
  let w1 :=
    PlayerInstance.set_log (PlayerInstance.log w ++ [routed w (leave_packet g)]) w in
  PlayerInstance.leave guildID w =
    if negb (truthy (PlayerInstance.arg guildID)) then
      (Throw (Error "Please provide a valid guild ID to leave a voice channel!"), w)
    else if negb (routable w g) then (Throw TypeError, w)
    else
      match PlayerInstance.players w !! g with
      | None => (Return false, w1)
      | Some a =>
          match PlayerInstance.objects w !! a with
          | None => (Throw TypeError, w1)
          | Some p =>
              (Return true,
               {| PlayerInstance.client := PlayerInstance.client w;
                  PlayerInstance.engine := PlayerInstance.engine w;
                  PlayerInstance.serversStorage := PlayerInstance.serversStorage w;
                  PlayerInstance.players := delete g (PlayerInstance.players w);
                  PlayerInstance.objects := <[a := left p]> (PlayerInstance.objects w);
                  PlayerInstance.log :=
                    PlayerInstance.log w
                    ++ [routed w (leave_packet g);
                        ByPlayer a (Send (stop_ (Player.guildID p)) None);
                        ByPlayer a (Send (destroy_ (Player.guildID p)) None)] |})
          end
      end.
Proof.
  intros g w1. unfold PlayerInstance.leave.
  destruct (negb (truthy (PlayerInstance.arg guildID))); [reflexivity|].
  rewrite (bind_step _ _ _ () w) by reflexivity.
  fold g. fold (leave_packet g).
  pose proof (sendWS_eq (leave_packet g) w) as Hsend. cbn [leave_packet d vs_guild_id] in Hsend.
  destruct (routable w g); cbn [negb].
  2:{ by rewrite (bind_abort _ _ _ _ _ Hsend). }
  rewrite (bind_step _ _ _ _ _ Hsend). fold w1.
  rewrite (bind_step _ _ _ (PlayerInstance.players w !! g) w1) by reflexivity.
  destruct (PlayerInstance.players w !! g) as [a|]; [|reflexivity].
  destruct (PlayerInstance.objects w !! a) as [p|] eqn:Hp.
  2:{ apply bind_abort. unfold PlayerInstance.call. cbn. by rewrite Hp. }
  rewrite (bind_step _ _ _ _ _ (call_eq a Player.removeAllListeners w1 p Hp)).
  rewrite (bind_step _ _ _ _ _ (call_eq a Player.stop _ _ (lookup_insert_eq _ _ _))).
  rewrite (bind_step _ _ _ _ _ (call_eq a Player.destroy _ _ (lookup_insert_eq _ _ _))).
  run. cbn. rewrite !insert_insert_eq, app_nil_r, <- !app_assoc. reflexivity.
Qed.

(** ** The invariant of the store *)

Lemma wf_empty (w : PlayerInstance.t) :
  PlayerInstance.players w = ∅ → PlayerInstance.wf w.
Proof. intros H g a. by rewrite H. Qed.

Lemma wf_set_log l (w : PlayerInstance.t) :
  PlayerInstance.wf w → PlayerInstance.wf (PlayerInstance.set_log l w).
Proof. done. Qed.

(** A created player is stored under its own guild ID, and the object is
    new, so the other references are untouched. *)
Lemma wf_stored (w : PlayerInstance.t) g options :
  PlayerInstance.wf w →
  Player.opt_guildID options = g →
  let a := fresh (dom (PlayerInstance.objects w)) in
  PlayerInstance.wf
    (PlayerInstance.set_players (<[g := a]> (PlayerInstance.players w))
       (PlayerInstance.set_objects
          (<[a := Player.constructor options]> (PlayerInstance.objects w)) w)).
Proof.
  intros Hwf Hg a g' a'. cbn.
  destruct (decide (g = g')) as [<-|Hne].
  - rewrite lookup_insert_eq. intros [= <-].
    rewrite lookup_insert_eq. by eexists.
  - rewrite lookup_insert_ne by done. intros Hg'.
    destruct (Hwf g' a' Hg') as (p & Hp & Hpg).
    exists p. split; [|done]. rewrite lookup_insert_ne; [done|].
    intros <-. apply (is_fresh (dom (PlayerInstance.objects w))).
    apply elem_of_dom. by eexists.
Qed.

Lemma join_wf options (w : PlayerInstance.t) :
  PlayerInstance.wf w → PlayerInstance.wf (PlayerInstance.join options w).2.
Proof.
  intros Hwf. destruct options as [options|]; [|done].
  destruct (PlayerInstance.players w !! PlayerInstance.guildID options)
    as [a|] eqn:Hg.
  { by rewrite (join_stored _ _ a). }
  rewrite join_new by done.
  rewrite bind_readonly by apply readonly_join_switch.
  destruct (PlayerInstance.join_switch options w).1; [|done].
  pose proof (sendWS_eq (join_packet options) w) as Hsend.
  destruct (routable w _).
  2:{ by rewrite (bind_abort _ _ _ _ _ Hsend). }
  rewrite (bind_step _ _ _ _ _ Hsend).
  destruct (PlayerInstance.serversStorage w !! PlayerInstance.host options)
    as [server|] eqn:Hserver.
  - rewrite (returnPlayer_new _ _ server) by done. by apply wf_stored.
  - by rewrite returnPlayer_no_server.
Qed.

Lemma leave_wf guildID (w : PlayerInstance.t) :
  PlayerInstance.wf w → PlayerInstance.wf (PlayerInstance.leave guildID w).2.
Proof.
  intros Hwf. rewrite leave_eq.
  destruct (negb (truthy _)); [done|].
  destruct (negb (routable _ _)); [done|].
  destruct (PlayerInstance.players w !! _) as [a|] eqn:Hg; [|done].
  destruct (PlayerInstance.objects w !! a) as [p|] eqn:Hp; [|done].
  intros g' a'. cbn. intros Hg'.
  apply lookup_delete_Some in Hg' as [Hne Hg'].
  destruct (Hwf g' a' Hg') as (p' & Hp' & Hpg).
  destruct (decide (a = a')) as [<-|Hna].
  - rewrite lookup_insert_eq. exists (left p). split; [done|].
    rewrite Hp in Hp'. by injection Hp' as <-.
  - rewrite lookup_insert_ne by done. by exists p'.
Qed.

(** [leave] throws in two cases only. *)
Lemma leave_throws_iff (guildID : option string) (w : PlayerInstance.t) :
  PlayerInstance.wf w →
  throws (PlayerInstance.leave guildID w) ↔
  truthy (PlayerInstance.arg guildID) = false
  ∨ routable w (PlayerInstance.key guildID) = false.
Proof.
  intros Hwf. unfold throws. rewrite leave_eq.
  destruct (truthy (PlayerInstance.arg guildID)); cbn [negb]; [|split; eauto].
  destruct (routable w _); cbn [negb]; [|split; eauto].
  destruct (PlayerInstance.players w !! _) as [a|] eqn:Hg.
  - destruct (Hwf _ a Hg) as (p & -> & _).
    split; [intros [e He]; discriminate He|intros [|]; done].
  - split; [intros [e He]; discriminate He|intros [|]; done].
Qed.

(** C5, as amended: [leave] deletes on leave.  It throws when [guildID] is
    missing; when [guildID] is there and the voice-state packet can be
    handed to the gateway, it does not throw.  When it returns, no player is
    stored for the guild: it returns false when none was stored, and true
    when the stored player was stopped, destroyed and removed. *)
Theorem leave_spec (guildID : option string) (w : PlayerInstance.t) :
  PlayerInstance.wf w →
  (truthy (PlayerInstance.arg guildID) = false →
   PlayerInstance.leave guildID w =
     (Throw (Error "Please provide a valid guild ID to leave a voice channel!"), w))
  ∧ (truthy (PlayerInstance.arg guildID) = true →
     routable w (PlayerInstance.key guildID) = true →
     ∃ r w', PlayerInstance.leave guildID w = (Return r, w'))
  ∧ ∀ r w',
      PlayerInstance.leave guildID w = (Return r, w') →
      PlayerInstance.players w' !! PlayerInstance.key guildID = None
      ∧ PlayerInstance.players w' =
          delete (PlayerInstance.key guildID) (PlayerInstance.players w)
      ∧ match PlayerInstance.players w !! PlayerInstance.key guildID with
        | None =>
            r = false
            ∧ PlayerInstance.objects w' = PlayerInstance.objects w
            ∧ PlayerInstance.log w' =
                PlayerInstance.log w
                ++ [routed w (leave_packet (PlayerInstance.key guildID))]
        | Some a =>
            r = true
            ∧ ∃ p,
                PlayerInstance.objects w !! a = Some p
                ∧ PlayerInstance.objects w' =
                    <[a := left p]> (PlayerInstance.objects w)
                ∧ PlayerInstance.log w' =
                    PlayerInstance.log w
                    ++ [routed w (leave_packet (PlayerInstance.key guildID));
                        ByPlayer a (Send (stop_ (PlayerInstance.key guildID)) None);
                        ByPlayer a (Send (destroy_ (PlayerInstance.key guildID)) None)]
        end.
Proof.
  intros Hwf. rewrite leave_eq.
  destruct (truthy (PlayerInstance.arg guildID)); cbn [negb].
  2:{ repeat split; done. }
  destruct (routable w _); cbn [negb].
  2:{ repeat split; done. }
  destruct (PlayerInstance.players w !! _) as [a|] eqn:Hg.
  - destruct (Hwf _ a Hg) as (p & Hp & Hpg). rewrite Hp, Hpg.
    split; [done|]. split; [by eexists _, _|].
    intros r w' [= <- <-]. cbn.
    split; [apply lookup_delete_eq|]. split; [done|]. split; [done|].
    by exists p.
  - split; [done|]. split; [by eexists _, _|].
    intros r w' [= <- <-]. cbn.
    split; [done|]. split; [|done].
    symmetry. by apply delete_id.
Qed.

(** A call without guild ID throws; a known guild with a stored player is
    left. *)
Lemma leave_spec_witness :
  PlayerInstance.wf (Sample.joined ∅)
  ∧ truthy (PlayerInstance.arg None) = false
  ∧ PlayerInstance.leave None (Sample.joined ∅) =
      (Throw (Error "Please provide a valid guild ID to leave a voice channel!"),
       Sample.joined ∅)
  ∧ truthy (PlayerInstance.arg (Some "81384788765712384")) = true
  ∧ routable (Sample.joined ∅) "81384788765712384" = true
  ∧ (∃ r w', PlayerInstance.leave (Some "81384788765712384") (Sample.joined ∅)
             = (Return r, w'))
  ∧ PlayerInstance.leave (Some "81384788765712384") (Sample.joined ∅)
    = (Return true,
       (PlayerInstance.leave (Some "81384788765712384") (Sample.joined ∅)).2)
  ∧ PlayerInstance.players
      (PlayerInstance.leave (Some "81384788765712384") (Sample.joined ∅)).2
      !! "81384788765712384" = None.
Proof.
  assert (PlayerInstance.wf (Sample.joined ∅)) as Hwf
    by (by apply join_wf, wf_empty).
  assert (truthy (PlayerInstance.arg None) = false) as Hmissing by reflexivity.
  assert (truthy (PlayerInstance.arg (Some "81384788765712384")) = true) as Hthere
    by reflexivity.
  assert (routable (Sample.joined ∅) "81384788765712384" = true) as Hroutable
    by (vm_compute; reflexivity).
  assert (PlayerInstance.leave (Some "81384788765712384") (Sample.joined ∅)
          = (Return true,
             (PlayerInstance.leave (Some "81384788765712384") (Sample.joined ∅)).2))
    as Hleave by (vm_compute; reflexivity).
  destruct (leave_spec None (Sample.joined ∅) Hwf) as (Hthrows & _ & _).
  destruct (leave_spec (Some "81384788765712384") (Sample.joined ∅) Hwf)
    as (_ & Hreturns & Hdeleted).
  repeat (split; [assumption|]).
  split; [exact (Hthrows Hmissing)|].
  repeat (split; [assumption|]).
  split; [exact (Hreturns Hthere Hroutable)|].
  split; [exact Hleave|].
  exact (proj1 (Hdeleted _ _ Hleave)).
Defined.

(** C5 fails on a guild the chat client does not know: the guild ID is
    there, and [leave] throws. *)
Lemma leave_unknown_guild_throws :
  truthy (PlayerInstance.arg (Some "81384788765712384")) = true
  ∧ PlayerInstance.leave (Some "81384788765712384") Sample.stranger
    = (Throw TypeError, Sample.stranger).
Proof. split; reflexivity. Qed.

(** ** [PlayerInstance.voiceServerUpdate] *)

(** The guild lookup of the engine finds the guilds the client knows. *)
Lemma engine_guild_lookup (w : PlayerInstance.t) (id : string) guild :
  known_guild w id = Some guild →
  match PlayerInstance.engine w with
  | PlayerInstance.discordjs => PlayerInstance.guilds_cache_get id
  | PlayerInstance.eris => PlayerInstance.guilds_get id
  end w = (Return (Some guild), w).
Proof.
  unfold known_guild. run.
  destruct (PlayerInstance.engine w), (sdk (PlayerInstance.client w));
    intros H; try done; by rewrite H.
Qed.

Lemma wf_call {A} (a : nat) (m : Player.method A) (w : PlayerInstance.t) :
  keeps_guildID m →
  PlayerInstance.wf w → PlayerInstance.wf (PlayerInstance.call a m w).2.
Proof.
  intros Hm Hwf. unfold PlayerInstance.call.
  destruct (PlayerInstance.objects w !! a) as [p|] eqn:Hp; [|done].
  specialize (Hm p []). destruct (m (p, [])) as [r [p' out]].
  intros g' a' Hg'. cbn in Hg', Hm |- *.
  destruct (Hwf g' a' Hg') as (p0 & Hp0 & Hpg).
  destruct (decide (a = a')) as [<-|Hne].
  - rewrite lookup_insert_eq. exists p'. split; [done|]. congruence.
  - rewrite lookup_insert_ne by done. by exists p0.
Qed.

Lemma keeps_guildID_connect session event :
  keeps_guildID (Player.connect session event).
Proof. done. Qed.

Lemma voiceServerUpdate_wf packet (w : PlayerInstance.t) :
  PlayerInstance.wf w →
  PlayerInstance.wf (PlayerInstance.voiceServerUpdate packet w).2.
Proof.
  intros Hwf. unfold PlayerInstance.voiceServerUpdate.
  rewrite (bind_step _ _ _ (PlayerInstance.players w !! guild_id packet) w)
    by reflexivity.
  destruct (PlayerInstance.players w !! guild_id packet) as [a|] eqn:Ha; [|done].
  rewrite (bind_step _ _ _ (PlayerInstance.engine w) w) by reflexivity.
  assert (readonly
            match PlayerInstance.engine w with
            | PlayerInstance.discordjs =>
                PlayerInstance.guilds_cache_get (guild_id packet)
            | PlayerInstance.eris => PlayerInstance.guilds_get (guild_id packet)
            end) as Hro by (destruct (PlayerInstance.engine w); auto with readonly).
  rewrite bind_readonly by done.
  destruct (_ w).1 as [[guild|]|]; [|done|done].
  rewrite (bind_step _ _ _ (PlayerInstance.client w) w) by reflexivity.
  rewrite bind_readonly
    by (destruct (PlayerInstance.engine w); apply readonly_deref).
  destruct (_ w).1 as [session|]; [|done].
  pose proof (wf_call a (Player.connect session packet) w
                (keeps_guildID_connect _ _) Hwf) as Hcall.
  unfold mbind, M_bind.
  by destruct (PlayerInstance.call a (Player.connect session packet) w) as [[] w'].
Qed.

(** C6, as amended: when a player is stored for the guild of the packet,
    the chat client knows the guild, and the session ID of the client's own
    voice state in that guild can be read, [voiceServerUpdate] sends the
    audio server one [voiceUpdate] message with the guild ID, that session
    ID and the packet as event, and changes nothing else; when no player is
    stored for the guild, nothing is sent. *)
Theorem voiceServerUpdate_relays (packet : VoiceServerUpdate)
    (w : PlayerInstance.t) :
  (∀ a guild session,
     PlayerInstance.wf w →
     PlayerInstance.players w !! guild_id packet = Some a →
     known_guild w (guild_id packet) = Some guild →
     own_session w guild = Some session →
     PlayerInstance.voiceServerUpdate packet w =
       (Return (),
        PlayerInstance.set_log
          (PlayerInstance.log w
           ++ [ByPlayer a (Send (voiceUpdate (guild_id packet) session packet) None)])
          w))
  ∧ (PlayerInstance.players w !! guild_id packet = None →
     PlayerInstance.voiceServerUpdate packet w = (Return (), w)).
Proof.
  split.
  - intros a guild session Hwf Ha Hguild Hsession.
    unfold PlayerInstance.voiceServerUpdate.
    rewrite (bind_step _ _ _ (PlayerInstance.players w !! guild_id packet) w)
      by reflexivity.
    rewrite Ha.
    rewrite (bind_step _ _ _ (PlayerInstance.engine w) w) by reflexivity.
    rewrite (bind_step _ _ _ _ _ (engine_guild_lookup w _ _ Hguild)).
    rewrite (bind_step _ _ _ (PlayerInstance.client w) w) by reflexivity.
    rewrite (bind_step _ _ _ session w).
    2:{ unfold own_session in Hsession.
        by destruct (PlayerInstance.engine w); rewrite Hsession. }
    destruct (Hwf _ _ Ha) as (p & Hp & Hpg).
    rewrite (bind_step _ _ _ _ _
               (call_eq a (Player.connect session packet) w p Hp)).
    run. cbn. rewrite Hpg, insert_id by done. by destruct w.
  - intros Ha. unfold PlayerInstance.voiceServerUpdate.
    rewrite (bind_step _ _ _ (PlayerInstance.players w !! guild_id packet) w)
      by reflexivity.
    by rewrite Ha.
Qed.

Lemma voiceServerUpdate_relays_witness :
  PlayerInstance.wf (Sample.joined Sample.sessions)
  ∧ PlayerInstance.players (Sample.joined Sample.sessions)
      !! guild_id Sample.packet = Some 0%nat
  ∧ known_guild (Sample.joined Sample.sessions) (guild_id Sample.packet)
    = Some (Sample.guild Sample.sessions)
  ∧ own_session (Sample.joined Sample.sessions) (Sample.guild Sample.sessions)
    = Some (VStr "a1b2c3")
  ∧ PlayerInstance.voiceServerUpdate Sample.packet (Sample.joined Sample.sessions) =
      (Return (),
       PlayerInstance.set_log
         (PlayerInstance.log (Sample.joined Sample.sessions)
          ++ [ByPlayer 0 (Send (voiceUpdate (guild_id Sample.packet)
                                  (VStr "a1b2c3") Sample.packet) None)])
         (Sample.joined Sample.sessions))
  ∧ PlayerInstance.players (Sample.instance Sample.sessions)
      !! guild_id Sample.packet = None
  ∧ PlayerInstance.voiceServerUpdate Sample.packet (Sample.instance Sample.sessions)
    = (Return (), Sample.instance Sample.sessions).
Proof.
  assert (PlayerInstance.wf (Sample.joined Sample.sessions)) as Hwf
    by (by apply join_wf, wf_empty).
  assert (PlayerInstance.players (Sample.joined Sample.sessions)
            !! guild_id Sample.packet = Some 0%nat) as Ha
    by (vm_compute; reflexivity).
  assert (known_guild (Sample.joined Sample.sessions) (guild_id Sample.packet)
          = Some (Sample.guild Sample.sessions)) as Hg
    by (vm_compute; reflexivity).
  assert (own_session (Sample.joined Sample.sessions) (Sample.guild Sample.sessions)
          = Some (VStr "a1b2c3")) as Hs
    by (vm_compute; reflexivity).
  assert (PlayerInstance.players (Sample.instance Sample.sessions)
            !! guild_id Sample.packet = None) as Hnone
    by reflexivity.
  repeat (split; [assumption|]).
  split.
  - exact (proj1 (voiceServerUpdate_relays Sample.packet
                    (Sample.joined Sample.sessions)) _ _ _ Hwf Ha Hg Hs).
  - split; [exact Hnone|].
    exact (proj2 (voiceServerUpdate_relays Sample.packet
                    (Sample.instance Sample.sessions)) Hnone).
Defined.

(** C6 fails when the client has no voice state in the guild: a player is
    stored, the chat client knows the guild, and reading the session ID
    throws; nothing is sent. *)
Lemma voiceServerUpdate_without_session :
  PlayerInstance.players (Sample.joined ∅) !! guild_id Sample.packet = Some 0%nat
  ∧ known_guild (Sample.joined ∅) (guild_id Sample.packet) = Some (Sample.guild ∅)
  ∧ PlayerInstance.voiceServerUpdate Sample.packet (Sample.joined ∅)
    = (Throw TypeError, Sample.joined ∅).
Proof. repeat split; vm_compute; reflexivity. Qed.

(** ** The invariant holds in every state an instance goes through *)

Lemma reachable_wf (w : PlayerInstance.t) : reachable w → PlayerInstance.wf w.
Proof.
  induction 1;
    auto using wf_empty, join_wf, leave_wf, voiceServerUpdate_wf, wf_call.
Qed.

(** The methods of [Player] keep the guild ID. *)
Lemma keeps_guildID_stop : keeps_guildID Player.stop.
Proof. done. Qed.

Lemma keeps_guildID_play now track options :
  keeps_guildID (Player.play now track options).
Proof. intros p l. run. by destruct (negb (truthy track)). Qed.

Lemma keeps_guildID_pause paused : keeps_guildID (Player.pause paused).
Proof. done. Qed.

Lemma keeps_guildID_setVolume f g h volume force :
  keeps_guildID (Player.setVolume f g h volume force).
Proof.
  intros p l.
  destruct (guarded f g h volume force) eqn:H.
  - by destruct (setVolume_guarded f g h volume force p l H) as [msg ->].
  - by rewrite setVolume_unguarded.
Qed.

Lemma keeps_guildID_disconnect reason : keeps_guildID (Player.disconnect reason).
Proof. done. Qed.

Lemma keeps_guildID_eventEmitter message :
  keeps_guildID (Player.eventEmitter message).
Proof.
  intros p l. unfold Player.eventEmitter.
  repeat (destruct (strict_eq _ _); [try done|]); try done.
  - run. by destruct (negb (Player.count "error" (Player.listeners p) =? 0)%nat).
Qed.

Lemma keeps_guildID_resume : keeps_guildID Player.resume.
Proof. done. Qed.

Lemma keeps_guildID_skip : keeps_guildID Player.skip.
Proof. done. Qed.

Lemma keeps_guildID_destroy : keeps_guildID Player.destroy.
Proof. done. Qed.

Lemma keeps_guildID_removeAllListeners : keeps_guildID Player.removeAllListeners.
Proof. done. Qed.

(** * Further properties *)

(** ** [Player.setVolume]: what is accepted *)

Lemma Qlt_bool_pos (q : Q) :
  Qeq_bool q 0 = false → Qlt_bool q 0 = false → Qlt_bool 0 q = true.
Proof.
  unfold Qlt_bool. intros Hne Hlt. rewrite Hne, andb_true_r in Hlt.
  assert (¬ (q <= 0)%Q) as Hq.
  { intros Hle. apply Qle_bool_iff in Hle. congruence. }
  apply Qnot_le_lt in Hq. apply andb_true_iff. split.
  - apply Qle_bool_iff. by apply Qlt_le_weak.
  - apply negb_true_iff. destruct (Qeq_bool 0 q) eqn:E; [|done].
    apply Qeq_bool_iff in E. rewrite <- E in Hq. by apply Qlt_irrefl in Hq.
Qed.

Lemma truthy_default_false (force : value) :
  truthy (default_param (VBool false) force) = truthy force.
Proof. by destruct force. Qed.

Section SetVolumeAccepts.

Variable StringToNumber : string → number.
Variable StringParseInt : string → option Z.
Variable ExponentParseInt : Q → Z.

Abbreviation setVolume' :=
  (Player.setVolume StringToNumber StringParseInt ExponentParseInt).

(** A numeric value that is truthy and not below 0 is above 0. *)
Lemma positive_guarded (v : value) :
  truthy (Number StringToNumber v) = true →
  lt StringToNumber v (of_Z 0) = false →
  gt StringToNumber v (of_Z 1000) = false →
  lt StringToNumber (of_Z 0) v = true.
Proof.
  unfold Js.lt, Js.gt, Js.Number. cbn [ToNumber of_Z].
  destruct (ToNumber StringToNumber v) as [q| |[]]; cbn; try done.
  intros Hne Hlt _. apply negb_true_iff in Hne. by apply Qlt_bool_pos.
Qed.

(** When no guard fires, the value is an integer above 0 and up to 1000,
    above 100 only when [force] is set. *)
Lemma unguarded_in_range volume force :
  guarded StringToNumber StringParseInt ExponentParseInt volume force = false →
  in_range StringToNumber volume = true
  ∧ (gt StringToNumber volume (of_Z 100) = true → truthy force = true)
  ∧ refused StringToNumber volume force = false.
Proof.
  intros Hg. unfold guarded in Hg.
  apply orb_false_elim in Hg as [Hg H4].
  apply orb_false_elim in Hg as [Hg H3].
  apply orb_false_elim in Hg as [H1 H2].
  apply orb_false_elim in H3 as [Hlt Hgt].
  apply negb_false_iff in H1.
  assert (integer StringToNumber volume = true) as Hint.
  { destruct (integer StringToNumber volume) eqn:E; [done|].
    destruct (non_integer_guarded _ StringParseInt ExponentParseInt volume E)
      as [H|H]; [by rewrite H1 in H|congruence]. }
  apply orb_false_elim in H2 as [H2 _]. apply negb_false_iff in H2.
  assert (lt StringToNumber (of_Z 0) volume = true) as Hpos
    by by apply positive_guarded.
  rewrite truthy_default_false in H4.
  assert (gt StringToNumber volume (of_Z 100) = true → truthy force = true)
    as Hforce.
  { intros H100. rewrite H100 in H4. by apply negb_false_iff in H4. }
  unfold in_range, refused. rewrite Hint, Hpos, Hlt, Hgt, H4.
  repeat split; try done. by destruct volume.
Qed.

(** What [setVolume] accepts is an integer above 0 and up to 1000, above
    100 only when [force] is set; it then sends one [volume] command and
    stores the value, and that is all it does. *)
Lemma setVolume_returns_in_range volume force p l r s' :
  setVolume' volume force (p, l) = (Return r, s') →
  in_range StringToNumber volume = true
  ∧ (gt StringToNumber volume (of_Z 100) = true → truthy force = true)
  ∧ refused StringToNumber volume force = false
  ∧ r = Player.This
  ∧ s' = (Player.set_state_volume volume p,
          l ++ [Send (volume_ (Player.guildID p) volume) None]).
Proof.
  intros Hret.
  destruct (guarded StringToNumber StringParseInt ExponentParseInt volume force)
    eqn:Hg.
  { destruct (setVolume_guarded _ _ _ volume force p l Hg) as [msg Hthrow].
    congruence. }
  rewrite setVolume_unguarded in Hret by done. injection Hret as <- <-.
  destruct (unguarded_in_range volume force Hg) as (Hrange & Hforce & Hrefused).
  by repeat split.
Qed.

End SetVolumeAccepts.

Lemma setVolume_in_range_witness :
  1 ≤ 250 ≤ 1000
  ∧ (250 ≤ 100 ∨ truthy (VBool true) = true)
  ∧ Sample.setVolume (of_Z 250) (VBool true) (Sample.player, []) =
      (Return Player.This,
       (Player.set_state_volume (of_Z 250) Sample.player,
        [] ++ [Send (volume_ (Player.guildID Sample.player) (of_Z 250)) None])).
Proof.
  assert (1 ≤ 250 ≤ 1000) as Hz by lia.
  assert (250 ≤ 100 ∨ truthy (VBool true) = true) as Hf by (right; reflexivity).
  split; [exact Hz|]. split; [exact Hf|].
  exact (setVolume_in_range Sample.StringToNumber Sample.StringParseInt
           Sample.ExponentParseInt 250 (VBool true) Sample.player [] Hz Hf).
Defined.

Lemma setVolume_returns_in_range_witness :
  Sample.setVolume (of_Z 50) VUndefined (Sample.player, []) =
    (Return Player.This,
     (Player.set_state_volume (of_Z 50) Sample.player,
      [Send (volume_ (Player.guildID Sample.player) (of_Z 50)) None]))
  ∧ in_range Sample.StringToNumber (of_Z 50) = true
  ∧ refused Sample.StringToNumber (of_Z 50) VUndefined = false.
Proof.
  assert (Sample.setVolume (of_Z 50) VUndefined (Sample.player, []) =
            (Return Player.This,
             (Player.set_state_volume (of_Z 50) Sample.player,
              [Send (volume_ (Player.guildID Sample.player) (of_Z 50)) None])))
    as H by (vm_compute; reflexivity).
  destruct (setVolume_returns_in_range Sample.StringToNumber Sample.StringParseInt
              Sample.ExponentParseInt _ _ _ _ _ _ H) as (Hr & _ & Hn & _).
  exact (conj H (conj Hr Hn)).
Defined.

(** ** [Player]: what every sequence of calls keeps *)

Section Sequences.

Variable StringToNumber : string → number.
Variable StringParseInt : string → option Z.
Variable ExponentParseInt : Q → Z.

Abbreviation exec := (Api.exec StringToNumber StringParseInt ExponentParseInt).
Abbreviation exec_all :=
  (Api.exec_all StringToNumber StringParseInt ExponentParseInt).

(** What holds before a sequence and is kept by every call holds after
    it. *)
Lemma exec_all_invariant (I : Player.t * list Effect → Prop) :
  (∀ c s, I s → I (exec c s).2) →
  ∀ calls s, I s → I (exec_all calls s).
Proof.
  intros Hstep calls. unfold Api.exec_all.
  induction calls as [|c calls IH]; intros s Hs; [done|].
  cbn. apply IH, Hstep, Hs.
Qed.

(** One call: the identity of the player and its queue are kept, the log
    grows by events and by commands for the guild of the player, and a
    stored volume that is in range stays in range. *)
Lemma exec_step (c : Api.Call) p l :
  ∃ p' new,
    (exec c (p, l)).2 = (p', l ++ new)
    ∧ Player.guildID p' = Player.guildID p
    ∧ Player.server p' = Player.server p
    ∧ Player.channelID p' = Player.channelID p
    ∧ Player.queue p' = Player.queue p
    ∧ Forall (own (Player.guildID p)) new
    ∧ (in_range StringToNumber (Player.volume (Player.state p)) = true →
       in_range StringToNumber (Player.volume (Player.state p')) = true).
Proof.
  destruct c; unfold Api.exec.
  - eexists _, [_]. run. cbn. repeat split; by repeat constructor.
  - eexists _, [_; _]. run. cbn. rewrite <- app_assoc.
    repeat split; by repeat constructor.
  - exists p, []. run. cbn. rewrite app_nil_r. repeat split; by repeat constructor.
  - run. destruct (negb (truthy track)); cbn.
    + exists p, []. rewrite app_nil_r. repeat split; by repeat constructor.
    + eexists _, [_]. repeat split; by repeat constructor.
  - eexists _, [_]. run. cbn. repeat split; by repeat constructor.
  - eexists _, [_]. run. cbn. repeat split; by repeat constructor.
  - eexists _, [_]. run. cbn. repeat split; by repeat constructor.
  - eexists _, [_]. run. cbn. repeat split; by repeat constructor.
  - destruct (guarded StringToNumber StringParseInt ExponentParseInt volume force)
      eqn:Hg.
    + destruct (setVolume_guarded _ _ _ volume force p l Hg) as [msg Hthrow].
      rewrite (bind_abort _ _ _ _ _ Hthrow).
      exists p, []. cbn. rewrite app_nil_r. repeat split; by repeat constructor.
    + pose proof (setVolume_unguarded _ _ _ volume force p l Hg) as Hret.
      rewrite (bind_step _ _ _ _ _ Hret).
      destruct (unguarded_in_range _ _ _ volume force Hg) as (Hrange & _).
      eexists _, [_]. cbn. repeat split; by repeat constructor.
  - eexists _, [_]. run. cbn. repeat split; by repeat constructor.
  - unfold Player.eventEmitter.
    destruct (strict_eq (msg_type message) (VStr "TrackStartEvent")).
    { eexists _, [_]. run. cbn. repeat split; by repeat constructor. }
    destruct (strict_eq (msg_type message) (VStr "TrackEndEvent")).
    { run. destruct (negb (strict_eq (msg_reason message) (VStr "REPLACED")));
        cbn; eexists _, [_]; repeat split; by repeat constructor. }
    destruct (strict_eq (msg_type message) (VStr "TrackExceptionEvent")).
    { run. destruct (negb (Player.count "error" (Player.listeners p) =? 0)%nat);
        cbn.
      - eexists _, [_]. repeat split; by repeat constructor.
      - exists p, []. rewrite app_nil_r. repeat split; by repeat constructor. }
    destruct (strict_eq (msg_type message) (VStr "TrackStuckEvent")).
    { eexists _, [_; _]. run. cbn. rewrite <- app_assoc.
      repeat split; by repeat constructor. }
    exists p, []. cbn. rewrite app_nil_r. repeat split; by repeat constructor.
Qed.

(** The same over a sequence of calls. *)
Lemma exec_all_keeps (calls : list Api.Call) p l :
  ∃ p' new,
    exec_all calls (p, l) = (p', l ++ new)
    ∧ Player.guildID p' = Player.guildID p
    ∧ Player.server p' = Player.server p
    ∧ Player.channelID p' = Player.channelID p
    ∧ Player.queue p' = Player.queue p
    ∧ Forall (own (Player.guildID p)) new
    ∧ (in_range StringToNumber (Player.volume (Player.state p)) = true →
       in_range StringToNumber (Player.volume (Player.state p')) = true).
Proof.
  apply (exec_all_invariant
    (λ s, ∃ p' new,
       s = (p', l ++ new)
       ∧ Player.guildID p' = Player.guildID p
       ∧ Player.server p' = Player.server p
       ∧ Player.channelID p' = Player.channelID p
       ∧ Player.queue p' = Player.queue p
       ∧ Forall (own (Player.guildID p)) new
       ∧ (in_range StringToNumber (Player.volume (Player.state p)) = true →
          in_range StringToNumber (Player.volume (Player.state p')) = true))).
  - intros c s (p1 & new1 & -> & Hg & Hs & Hc & Hq & Hown & Hv).
    destruct (exec_step c p1 (l ++ new1))
      as (p2 & new2 & -> & Hg2 & Hs2 & Hc2 & Hq2 & Hown2 & Hv2).
    exists p2, (new1 ++ new2). rewrite app_assoc.
    repeat split; try congruence; [|by auto].
    apply Forall_app. split; [done|]. by rewrite <- Hg.
  - exists p, []. rewrite app_nil_r. repeat split; by try constructor.
Qed.

(** Whatever the calls are and whichever of them throw: the guild, the
    server, the channel and the queue of a player stay as they were, nothing
    is ever taken from the log, and what is added are events and commands
    for the guild of the player. *)
Theorem exec_all_frame (calls : list Api.Call) p l :
  ∃ p' new,
    exec_all calls (p, l) = (p', l ++ new)
    ∧ Player.guildID p' = Player.guildID p
    ∧ Player.server p' = Player.server p
    ∧ Player.channelID p' = Player.channelID p
    ∧ Player.queue p' = Player.queue p
    ∧ Forall (own (Player.guildID p)) new.
Proof.
  destruct (exec_all_keeps calls p l)
    as (p' & new & H & Hg & Hs & Hc & Hq & Hown & _).
  by exists p', new.
Qed.

(** The stored volume of a player is an integer above 0 and up to 1000
    after every sequence of calls, whichever of them throw. *)
Theorem exec_all_volume_in_range (calls : list Api.Call)
    (options : Player.PlayerOptions) l :
  in_range StringToNumber
    (Player.volume (Player.state (exec_all calls (Player.constructor options, l)).1))
  = true.
Proof.
  destruct (exec_all_keeps calls (Player.constructor options) l)
    as (p' & new & -> & _ & _ & _ & _ & _ & Hv).
  by apply Hv.
Qed.

(** No method adds to the queue: [getQueue] returns the empty queue of the
    constructor after every sequence of calls. *)
Theorem getQueue_always_empty (calls : list Api.Call)
    (options : Player.PlayerOptions) l :
  Player.getQueue (exec_all calls (Player.constructor options, l)) =
    (Return [], exec_all calls (Player.constructor options, l)).
Proof.
  destruct (exec_all_keeps calls (Player.constructor options) l)
    as (p' & new & -> & _ & _ & _ & Hq & _).
  unfold Player.getQueue. run. cbn. by rewrite Hq.
Qed.

End Sequences.

(** ** [Player]: errors and events *)

(** [play] without a track throws before it writes or sends anything. *)
Lemma play_missing_track_unchanged (now : Z) (track : value)
    (options : option PlayOptions) p l :
  truthy track = false →
  Player.play now track options (p, l) =
    (Throw (Error "Please provide a valid base64 track!"), (p, l)).
Proof. intros H. run. by rewrite H. Qed.

Lemma play_missing_track_unchanged_witness :
  truthy (VStr "") = false
  ∧ Player.play 1607731200000 (VStr "") None (Sample.playing, []) =
      (Throw (Error "Please provide a valid base64 track!"), (Sample.playing, [])).
Proof.
  split; [reflexivity|].
  apply (play_missing_track_unchanged 1607731200000 (VStr "") None
           Sample.playing []).
  reflexivity.
Defined.

(** A stuck track stops the player: unlike a [TrackEndEvent], a
    [TrackStuckEvent] sends [stop], clears [currentTrack] and [isPlaying],
    and then emits [trackEnd] with the message. *)
Lemma stuck_stops (message : Message) p l :
  msg_type message = VStr "TrackStuckEvent" →
  ∃ r,
    Player.eventEmitter message (p, l) =
      (Return r,
       (Player.set_currentTrack VUndefined (Player.set_isPlaying false p),
        l ++ [Send (stop_ (Player.guildID p)) None;
              Emit "trackEnd" [AMessage message]])).
Proof.
  intros H. unfold Player.eventEmitter. rewrite H.
  cbn [strict_eq String.eqb Ascii.eqb Bool.eqb].
  run. cbn. rewrite <- app_assoc. by eexists.
Qed.

Lemma stuck_stops_witness :
  msg_type {| msg_op := VStr "event"; msg_guildId := "81384788765712384";
              msg_type := VStr "TrackStuckEvent"; msg_reason := VUndefined |}
    = VStr "TrackStuckEvent"
  ∧ ∃ r,
      Player.eventEmitter
        {| msg_op := VStr "event"; msg_guildId := "81384788765712384";
           msg_type := VStr "TrackStuckEvent"; msg_reason := VUndefined |}
        (Sample.playing, []) =
        (Return r,
         (Player.set_currentTrack VUndefined
            (Player.set_isPlaying false Sample.playing),
          [] ++ [Send (stop_ (Player.guildID Sample.playing)) None;
                 Emit "trackEnd"
                   [AMessage
                      {| msg_op := VStr "event";
                         msg_guildId := "81384788765712384";
                         msg_type := VStr "TrackStuckEvent";
                         msg_reason := VUndefined |}]])).
Proof.
  split; [reflexivity|].
  apply (stuck_stops
           {| msg_op := VStr "event"; msg_guildId := "81384788765712384";
              msg_type := VStr "TrackStuckEvent"; msg_reason := VUndefined |}
           Sample.playing []).
  reflexivity.
Defined.

(** Apart from [TrackEndEvent] and [TrackStuckEvent], no message changes
    the player or sends a command.  A [TrackStartEvent] emits [trackStart];
    a [TrackExceptionEvent] emits [error] with the message when a listener
    for [error] is registered, and does nothing at all otherwise; a message
    of any other type does nothing. *)
Lemma other_events_frame (message : Message) p l :
  strict_eq (msg_type message) (VStr "TrackEndEvent") = false →
  strict_eq (msg_type message) (VStr "TrackStuckEvent") = false →
  ∃ r new,
    Player.eventEmitter message (p, l) = (Return r, (p, l ++ new))
    ∧ new =
        (if strict_eq (msg_type message) (VStr "TrackStartEvent")
         then [Emit "trackStart" []]
         else if strict_eq (msg_type message) (VStr "TrackExceptionEvent")
                 && negb (Player.count "error" (Player.listeners p) =? 0)%nat
         then [Emit "error" [AMessage message]]
         else []).
Proof.
  intros Hend Hstuck. unfold Player.eventEmitter. rewrite Hend, Hstuck.
  destruct (strict_eq (msg_type message) (VStr "TrackStartEvent")).
  { run. cbn. by eexists _, _. }
  destruct (strict_eq (msg_type message) (VStr "TrackExceptionEvent")); cbn.
  - run. destruct (negb (Player.count "error" (Player.listeners p) =? 0)%nat);
      cbn; eexists _, _; split; try reflexivity. by rewrite app_nil_r.
  - eexists _, _. split; [|reflexivity]. by rewrite app_nil_r.
Qed.

Lemma other_events_frame_witness :
  strict_eq (VStr "TrackExceptionEvent") (VStr "TrackEndEvent") = false
  ∧ strict_eq (VStr "TrackExceptionEvent") (VStr "TrackStuckEvent") = false
  ∧ ∃ r,
      Player.eventEmitter
        {| msg_op := VStr "event"; msg_guildId := "81384788765712384";
           msg_type := VStr "TrackExceptionEvent"; msg_reason := VUndefined |}
        (Sample.playing, []) =
        (Return r, (Sample.playing, [])).
Proof.
  split; [reflexivity|]. split; [reflexivity|].
  destruct (other_events_frame
              {| msg_op := VStr "event"; msg_guildId := "81384788765712384";
                 msg_type := VStr "TrackExceptionEvent";
                 msg_reason := VUndefined |}
              Sample.playing [] eq_refl eq_refl) as (r & new & H & ->).
  exists r. exact H.
Defined.

(** ** [PlayerInstance.join]: failures *)

(** When [join] throws, no player was created or stored.  It throws
    before anything leaves the instance, with one exception: when no server
    is registered for the host, the voice-state packet has already gone to
    the gateway when [returnPlayer] throws. *)
Lemma join_throws_frame options (w w' : PlayerInstance.t) e :
  PlayerInstance.join options w = (Throw e, w') →
  PlayerInstance.players w' = PlayerInstance.players w
  ∧ PlayerInstance.objects w' = PlayerInstance.objects w
  ∧ (w' = w
     ∨ ∃ o, options = Some o
            ∧ PlayerInstance.serversStorage w !! PlayerInstance.host o = None
            ∧ e = Error (PlayerInstance.no_server (PlayerInstance.host o))
            ∧ w' = PlayerInstance.set_log
                     (PlayerInstance.log w ++ [routed w (join_packet o)]) w).
Proof.
  destruct options as [o|]; [|by intros [= <- <-]; auto].
  destruct (PlayerInstance.players w !! PlayerInstance.guildID o) as [a|] eqn:Hg.
  { by rewrite (join_stored _ _ a). }
  rewrite join_new by done.
  rewrite bind_readonly by apply readonly_join_switch.
  destruct (PlayerInstance.join_switch o w).1; [|by intros [= <- <-]; auto].
  pose proof (sendWS_eq (join_packet o) w) as Hsend.
  destruct (routable w _).
  2:{ rewrite (bind_abort _ _ _ _ _ Hsend). by intros [= <- <-]; auto. }
  rewrite (bind_step _ _ _ _ _ Hsend).
  destruct (PlayerInstance.serversStorage w !! PlayerInstance.host o)
    as [server|] eqn:Hserver.
  - by rewrite (returnPlayer_new _ _ server).
  - rewrite returnPlayer_no_server by done. intros [= <- <-].
    repeat split; try done. right. by exists o.
Qed.




Lemma join_throws_frame_witness :
  PlayerInstance.join (Some Scene.elsewhere) (Sample.instance ∅) =
    (Throw (Error (PlayerInstance.no_server "lavalink.example.org")),
     (PlayerInstance.join (Some Scene.elsewhere) (Sample.instance ∅)).2)
  ∧ PlayerInstance.players
      (PlayerInstance.join (Some Scene.elsewhere) (Sample.instance ∅)).2
    = PlayerInstance.players (Sample.instance ∅).
Proof.
  assert (PlayerInstance.join (Some Scene.elsewhere) (Sample.instance ∅) =
            (Throw (Error (PlayerInstance.no_server "lavalink.example.org")),
             (PlayerInstance.join (Some Scene.elsewhere) (Sample.instance ∅)).2))
    as H by (vm_compute; reflexivity).
  split; [exact H|].
  exact (proj1 (join_throws_frame _ _ _ _ H)).
Defined.

Lemma join_discordjs_throws_witness :
  PlayerInstance.engine Scene.discordjs_instance = PlayerInstance.discordjs
  ∧ PlayerInstance.players Scene.discordjs_instance
      !! PlayerInstance.guildID Sample.options = None
  ∧ ∃ e, PlayerInstance.join (Some Sample.options) Scene.discordjs_instance
         = (Throw e, Scene.discordjs_instance).
Proof.
  repeat (split; [reflexivity|]).
  apply (join_discordjs_throws Sample.options Scene.discordjs_instance);
    reflexivity.
Defined.

Lemma join_eris_succeeds_witness :
  PlayerInstance.engine (Sample.instance ∅) = PlayerInstance.eris
  ∧ sdk (PlayerInstance.client (Sample.instance ∅)) = Eris
  ∧ PlayerInstance.players (Sample.instance ∅)
      !! PlayerInstance.guildID Sample.options = None
  ∧ PlayerInstance.serversStorage (Sample.instance ∅)
      !! PlayerInstance.host Sample.options = Some 0%nat
  ∧ ∃ w', PlayerInstance.join (Some Sample.options) (Sample.instance ∅)
          = (Return (fresh (dom (PlayerInstance.objects (Sample.instance ∅)))), w').
Proof.
  repeat (split; [reflexivity|]).
  apply (join_eris_succeeds Sample.options (Sample.instance ∅) (Sample.guild ∅)
           (Sample.voice "276060004262477825") ["voiceConnect"; "voiceSpeak"]
           0%nat);
    try reflexivity.
  - apply list_elem_of_here.
  - apply list_elem_of_further, list_elem_of_here.
Defined.

(** ** [PlayerInstance]: how [join] and [leave] compose *)

Lemma routable_set (w w' : PlayerInstance.t) g :
  PlayerInstance.client w' = PlayerInstance.client w →
  PlayerInstance.engine w' = PlayerInstance.engine w →
  routable w' g = routable w g.
Proof. unfold routable. by intros -> ->. Qed.

(** What a first [join] that returns has done. *)
Lemma join_first_inv (options : PlayerInstance.JoinOptions)
    (w w' : PlayerInstance.t) a :
  PlayerInstance.players w !! PlayerInstance.guildID options = None →
  PlayerInstance.join (Some options) w = (Return a, w') →
  ∃ server,
    PlayerInstance.serversStorage w !! PlayerInstance.host options = Some server
    ∧ a = fresh (dom (PlayerInstance.objects w))
    ∧ w' =
        {| PlayerInstance.client := PlayerInstance.client w;
           PlayerInstance.engine := PlayerInstance.engine w;
           PlayerInstance.serversStorage := PlayerInstance.serversStorage w;
           PlayerInstance.players :=
             <[PlayerInstance.guildID options := a]> (PlayerInstance.players w);
           PlayerInstance.objects :=
             <[a := Player.constructor
                      {| Player.opt_server := server;
                         Player.opt_guildID := PlayerInstance.guildID options;
                         Player.opt_channelID := PlayerInstance.channelID options |}]>
               (PlayerInstance.objects w);
           PlayerInstance.log :=
             PlayerInstance.log w ++ [routed w (join_packet options)] |}.
Proof.
  intros Hnone Hjoin. rewrite join_new in Hjoin by done.
  rewrite bind_readonly in Hjoin by apply readonly_join_switch.
  destruct (PlayerInstance.join_switch options w).1; [|done].
  apply bind_Return in Hjoin as ([] & w0 & Hsend & Hret).
  rewrite sendWS_eq in Hsend. destruct (routable w _); [|done].
  injection Hsend as <-.
  destruct (PlayerInstance.serversStorage w !! PlayerInstance.host options)
    as [server|] eqn:Hserver.
  - rewrite (returnPlayer_new _ _ server) in Hret by done.
    injection Hret as <- <-. by exists server.
  - by rewrite returnPlayer_no_server in Hret.
Qed.

(** Leaving after joining undoes the store: when a first [join] for a
    guild has returned and [leave] for that guild returns, it returns true
    and [players] is what it was before the [join]; the player object
    stays, stopped, for whoever still holds it. *)
Lemma join_leave_round_trip (options : PlayerInstance.JoinOptions)
    (w w1 w2 : PlayerInstance.t) a r :
  PlayerInstance.players w !! PlayerInstance.guildID options = None →
  PlayerInstance.join (Some options) w = (Return a, w1) →
  PlayerInstance.leave (Some (PlayerInstance.guildID options)) w1 = (Return r, w2) →
  r = true
  ∧ PlayerInstance.players w2 = PlayerInstance.players w
  ∧ PlayerInstance.serversStorage w2 = PlayerInstance.serversStorage w
  ∧ (∃ p, PlayerInstance.objects w1 !! a = Some p
          ∧ PlayerInstance.objects w2 =
              <[a := left p]> (PlayerInstance.objects w1))
  ∧ PlayerInstance.log w2 =
      PlayerInstance.log w
      ++ [routed w (join_packet options);
          routed w (leave_packet (PlayerInstance.guildID options));
          ByPlayer a (Send (stop_ (PlayerInstance.guildID options)) None);
          ByPlayer a (Send (destroy_ (PlayerInstance.guildID options)) None)].
Proof.
  intros Hnone Hjoin Hleave.
  destruct (join_first_inv options w w1 a Hnone Hjoin)
    as (server & Hserver & Ha & ->).
  rewrite leave_eq in Hleave. cbn [PlayerInstance.key default] in Hleave.
  destruct (negb (truthy _)); [done|].
  destruct (negb (routable _ _)); [done|].
  cbn [PlayerInstance.players PlayerInstance.objects] in Hleave.
  rewrite !lookup_insert_eq in Hleave.
  injection Hleave as <- <-. cbn.
  repeat split; try done.
  - by rewrite delete_insert_id.
  - eexists. split; [by rewrite lookup_insert_eq|done].
  - by rewrite <- app_assoc.
Qed.

Lemma join_leave_round_trip_witness :
  PlayerInstance.players (Sample.instance ∅)
    !! PlayerInstance.guildID Sample.options = None
  ∧ PlayerInstance.join (Some Sample.options) (Sample.instance ∅)
    = (Return 0%nat, Sample.joined ∅)
  ∧ PlayerInstance.leave (Some (PlayerInstance.guildID Sample.options))
      (Sample.joined ∅)
    = (Return true,
       (PlayerInstance.leave (Some (PlayerInstance.guildID Sample.options))
          (Sample.joined ∅)).2)
  ∧ PlayerInstance.players
      (PlayerInstance.leave (Some (PlayerInstance.guildID Sample.options))
         (Sample.joined ∅)).2
    = PlayerInstance.players (Sample.instance ∅).
Proof.
  assert (PlayerInstance.players (Sample.instance ∅)
            !! PlayerInstance.guildID Sample.options = None) as H1
    by reflexivity.
  assert (PlayerInstance.join (Some Sample.options) (Sample.instance ∅)
          = (Return 0%nat, Sample.joined ∅)) as H2
    by (vm_compute; reflexivity).
  assert (PlayerInstance.leave (Some (PlayerInstance.guildID Sample.options))
            (Sample.joined ∅)
          = (Return true,
             (PlayerInstance.leave (Some (PlayerInstance.guildID Sample.options))
                (Sample.joined ∅)).2)) as H3
    by (vm_compute; reflexivity).
  repeat (split; [assumption|]).
  exact (proj1 (proj2 (join_leave_round_trip _ _ _ _ _ _ H1 H2 H3))).
Defined.

(** After a [leave] that returned, a second [leave] for the same guild
    finds no player: it sends the voice-state packet once more, returns
    false, and leaves the store as it is. *)
Lemma leave_twice (guildID : option string) (w w1 : PlayerInstance.t) r :
  PlayerInstance.wf w →
  PlayerInstance.leave guildID w = (Return r, w1) →
  PlayerInstance.leave guildID w1 =
    (Return false,
     PlayerInstance.set_log
       (PlayerInstance.log w1
        ++ [routed w (leave_packet (PlayerInstance.key guildID))]) w1).
Proof.
  intros Hwf Hleave.
  assert (PlayerInstance.players w1 !! PlayerInstance.key guildID = None
          ∧ PlayerInstance.client w1 = PlayerInstance.client w
          ∧ PlayerInstance.engine w1 = PlayerInstance.engine w)
    as (Hnone & Hclient & Hengine).
  { rewrite leave_eq in Hleave.
    destruct (negb (truthy _)); [done|].
    destruct (negb (routable _ _)); [done|].
    destruct (PlayerInstance.players w !! _) as [a|] eqn:Hg.
    - destruct (Hwf _ a Hg) as (p & Hp & _). rewrite Hp in Hleave.
      injection Hleave as <- <-. cbn. by rewrite lookup_delete_eq.
    - by injection Hleave as <- <-. }
  rewrite leave_eq in Hleave |- *.
  rewrite (routable_set w w1) by done.
  destruct (negb (truthy _)); [done|].
  destruct (negb (routable _ _)); [done|].
  rewrite Hnone. unfold routed. by rewrite Hclient, Hengine.
Qed.

Lemma leave_twice_witness :
  PlayerInstance.wf (Sample.joined ∅)
  ∧ PlayerInstance.leave (Some "81384788765712384") (Sample.joined ∅)
    = (Return true,
       (PlayerInstance.leave (Some "81384788765712384") (Sample.joined ∅)).2)
  ∧ (PlayerInstance.leave (Some "81384788765712384")
       (PlayerInstance.leave (Some "81384788765712384") (Sample.joined ∅)).2).1
    = Return false.
Proof.
  assert (PlayerInstance.wf (Sample.joined ∅)) as Hwf
    by (by apply join_wf, wf_empty).
  assert (PlayerInstance.leave (Some "81384788765712384") (Sample.joined ∅)
          = (Return true,
             (PlayerInstance.leave (Some "81384788765712384") (Sample.joined ∅)).2))
    as H by (vm_compute; reflexivity).
  split; [exact Hwf|]. split; [exact H|].
  by rewrite (leave_twice _ _ _ _ Hwf H).
Defined.

(** After [join], [leave] and [join] again, the guild has a new player:
    the object of the first [join] is not used again, and it is still
    there, stopped. *)
Lemma join_again_new_player (options options' : PlayerInstance.JoinOptions)
    (w w1 w2 w3 : PlayerInstance.t) a a' :
  PlayerInstance.guildID options' = PlayerInstance.guildID options →
  PlayerInstance.players w !! PlayerInstance.guildID options = None →
  PlayerInstance.join (Some options) w = (Return a, w1) →
  PlayerInstance.leave (Some (PlayerInstance.guildID options)) w1
    = (Return true, w2) →
  PlayerInstance.join (Some options') w2 = (Return a', w3) →
  a' ≠ a
  ∧ PlayerInstance.players w3 !! PlayerInstance.guildID options = Some a'
  ∧ ∃ p, PlayerInstance.objects w3 !! a = Some p
         ∧ Player.isPlaying p = false
         ∧ Player.currentTrack p = VUndefined.
Proof.
  intros Hsame Hnone Hjoin Hleave Hjoin'.
  assert (PlayerInstance.players w2 = PlayerInstance.players w
          ∧ ∃ p, PlayerInstance.objects w2 =
                   <[a := left p]> (PlayerInstance.objects w1))
    as (Hplayers & p & Hobjects).
  { destruct (join_first_inv options w w1 a Hnone Hjoin)
      as (server & Hserver & Ha & ->).
    rewrite leave_eq in Hleave. cbn [PlayerInstance.key default] in Hleave.
    destruct (negb (truthy _)); [done|].
    destruct (negb (routable _ _)); [done|].
    cbn [PlayerInstance.players PlayerInstance.objects] in Hleave.
    rewrite !lookup_insert_eq in Hleave.
    injection Hleave as <-. cbn. split; [by rewrite delete_insert_id|].
    by eexists. }
  assert (PlayerInstance.players w2 !! PlayerInstance.guildID options' = None)
    as Hnone' by by rewrite Hsame, Hplayers.
  destruct (join_first_inv options' w2 w3 a' Hnone' Hjoin')
    as (server & _ & Ha' & ->).
  assert (a' ≠ a) as Hne.
  { intros ->. apply (is_fresh (dom (PlayerInstance.objects w2))).
    rewrite <- Ha', Hobjects. apply elem_of_dom.
    rewrite lookup_insert_eq. by eexists. }
  split; [done|]. cbn. split; [by rewrite <- Hsame, lookup_insert_eq|].
  exists (left p). rewrite lookup_insert_ne by done.
  by rewrite Hobjects, lookup_insert_eq.
Qed.

(** ** [PlayerInstance]: the store in the states it goes through *)

(** In every state an instance goes through, each stored reference leads
    to a player whose guild ID is the key it is stored under, and no two
    guilds share a player. *)
Lemma reachable_store (w : PlayerInstance.t) :
  reachable w →
  PlayerInstance.wf w
  ∧ ∀ g g' a,
      PlayerInstance.players w !! g = Some a →
      PlayerInstance.players w !! g' = Some a →
      g = g'.
Proof.
  intros Hw. apply reachable_wf in Hw. split; [done|].
  intros g g' a Hg Hg'.
  destruct (Hw g a Hg) as (p & Hp & <-).
  destruct (Hw g' a Hg') as (p' & Hp' & <-).
  congruence.
Qed.

Lemma reachable_store_witness :
  reachable (Sample.joined ∅)
  ∧ PlayerInstance.wf (Sample.joined ∅).
Proof.
  assert (reachable (Sample.joined ∅)) as H
    by (apply reach_join, reach_new; reflexivity).
  exact (conj H (proj1 (reachable_store _ H))).
Defined.

Lemma join_again_new_player_witness :
  PlayerInstance.guildID Sample.options = PlayerInstance.guildID Sample.options
  ∧ PlayerInstance.players (Sample.instance ∅)
      !! PlayerInstance.guildID Sample.options = None
  ∧ PlayerInstance.join (Some Sample.options) (Sample.instance ∅)
    = (Return 0%nat, Sample.joined ∅)
  ∧ PlayerInstance.leave (Some (PlayerInstance.guildID Sample.options))
      (Sample.joined ∅)
    = (Return true,
       (PlayerInstance.leave (Some (PlayerInstance.guildID Sample.options))
          (Sample.joined ∅)).2)
  ∧ PlayerInstance.join (Some Sample.options)
      (PlayerInstance.leave (Some (PlayerInstance.guildID Sample.options))
         (Sample.joined ∅)).2
    = (Return 1%nat,
       (PlayerInstance.join (Some Sample.options)
          (PlayerInstance.leave (Some (PlayerInstance.guildID Sample.options))
             (Sample.joined ∅)).2).2)
  ∧ 1%nat ≠ 0%nat.
Proof.
  assert (PlayerInstance.players (Sample.instance ∅)
            !! PlayerInstance.guildID Sample.options = None) as H1
    by reflexivity.
  assert (PlayerInstance.join (Some Sample.options) (Sample.instance ∅)
          = (Return 0%nat, Sample.joined ∅)) as H2
    by (vm_compute; reflexivity).
  assert (PlayerInstance.leave (Some (PlayerInstance.guildID Sample.options))
            (Sample.joined ∅)
          = (Return true,
             (PlayerInstance.leave (Some (PlayerInstance.guildID Sample.options))
                (Sample.joined ∅)).2)) as H3
    by (vm_compute; reflexivity).
  assert (PlayerInstance.join (Some Sample.options)
            (PlayerInstance.leave (Some (PlayerInstance.guildID Sample.options))
               (Sample.joined ∅)).2
          = (Return 1%nat,
             (PlayerInstance.join (Some Sample.options)
                (PlayerInstance.leave (Some (PlayerInstance.guildID Sample.options))
                   (Sample.joined ∅)).2).2)) as H4
    by (vm_compute; reflexivity).
  split; [reflexivity|].
  repeat (split; [assumption|]).
  exact (proj1 (join_again_new_player Sample.options Sample.options _ _ _ _ _ _
                  eq_refl H1 H2 H3 H4)).
Defined.

(** ** [PlayerInstance.voiceServerUpdate]: what it leaves alone *)

Lemma set_log_id (w : PlayerInstance.t) :
  PlayerInstance.set_log (PlayerInstance.log w ++ []) w = w.
Proof. destruct w. unfold PlayerInstance.set_log. cbn. by rewrite app_nil_r. Qed.

(** Whatever the packet and whether the method returns or throws, it
    creates, removes and changes no player; all it may do is send one
    [voiceUpdate] command, for the guild of the packet and through the
    player stored for it.  For a guild the chat client does not know it
    sends nothing. *)
Lemma voiceServerUpdate_frame (packet : VoiceServerUpdate) (w : PlayerInstance.t) :
  PlayerInstance.wf w →
  (∃ new,
     (PlayerInstance.voiceServerUpdate packet w).2 =
       PlayerInstance.set_log (PlayerInstance.log w ++ new) w
     ∧ (new = []
        ∨ ∃ a session,
            PlayerInstance.players w !! guild_id packet = Some a
            ∧ new = [ByPlayer a
                       (Send (voiceUpdate (guild_id packet) session packet) None)]))
  ∧ (known_guild w (guild_id packet) = None →
     (PlayerInstance.voiceServerUpdate packet w).2 = w).
Proof.
  intros Hwf. unfold PlayerInstance.voiceServerUpdate.
  rewrite (bind_step _ _ _ (PlayerInstance.players w !! guild_id packet) w)
    by reflexivity.
  destruct (PlayerInstance.players w !! guild_id packet) as [a|] eqn:Ha.
  2:{ split; [|done]. exists []. by rewrite set_log_id; auto. }
  rewrite (bind_step _ _ _ (PlayerInstance.engine w) w) by reflexivity.
  assert (readonly
            match PlayerInstance.engine w with
            | PlayerInstance.discordjs =>
                PlayerInstance.guilds_cache_get (guild_id packet)
            | PlayerInstance.eris => PlayerInstance.guilds_get (guild_id packet)
            end) as Hro by (destruct (PlayerInstance.engine w); auto with readonly).
  rewrite bind_readonly by done.
  destruct (_ w).1 as [[guild|]|] eqn:Hlookup.
  2,3: split; [exists []; by rewrite set_log_id; auto|done].
  assert (known_guild w (guild_id packet) = Some guild) as Hknown.
  { revert Hlookup. unfold known_guild. run.
    destruct (PlayerInstance.engine w), (sdk (PlayerInstance.client w));
      cbn; congruence. }
  split; [|by rewrite Hknown].
  rewrite (bind_step _ _ _ (PlayerInstance.client w) w) by reflexivity.
  rewrite bind_readonly
    by (destruct (PlayerInstance.engine w); apply readonly_deref).
  clear Hlookup.
  match goal with
  | |- context [(?m w).1] => destruct (m w).1 as [session|]
  end.
  2:{ exists []. by rewrite set_log_id; auto. }
  destruct (Hwf _ _ Ha) as (p & Hp & Hpg).
  rewrite (bind_step _ _ _ _ _
             (call_eq a (Player.connect session packet) w p Hp)).
  run. cbn. rewrite Hpg, insert_id by done.
  eexists. split; [|right; by eexists _, _]. by destruct w.
Qed.

Lemma voiceServerUpdate_frame_witness :
  PlayerInstance.wf (Sample.joined Sample.sessions)
  ∧ ∃ new,
      (PlayerInstance.voiceServerUpdate Sample.packet
         (Sample.joined Sample.sessions)).2 =
        PlayerInstance.set_log
          (PlayerInstance.log (Sample.joined Sample.sessions) ++ new)
          (Sample.joined Sample.sessions).
Proof.
  assert (PlayerInstance.wf (Sample.joined Sample.sessions)) as Hwf
    by (by apply join_wf, wf_empty).
  split; [exact Hwf|].
  destruct (proj1 (voiceServerUpdate_frame Sample.packet _ Hwf)) as (new & H & _).
  by exists new.
Defined.

(** ** [PlayerInstance.createServer] and [PlayerInstance.deleteServer] *)

#[global] Hint Unfold
  Servers.new_LavalinkWebsocket Servers.on Servers.removeAllListeners
  Servers.createServer Servers.deleteServer : method.

(** [createServer] stores a new server object under the host, with its two
    listeners, and touches no other server and no player. *)
Lemma createServer_eq (options : Servers.LavalinkServerOptions) (s : Servers.t) :
  let server := fresh (dom (Servers.websockets s)) in
  Servers.createServer options s =
    (Return server,
     {| Servers.instance :=
          Servers.set_serversStorage
            (<[Servers.host options := server]>
               (PlayerInstance.serversStorage (Servers.instance s)))
            (Servers.instance s);
        Servers.websockets :=
          <[server := {| Servers.options := options;
                         Servers.listeners := ["error"; "message"] |}]>
            (Servers.websockets s) |}).
Proof.
  run. cbn. unfold Servers.set_websockets, Servers.set_instance. cbn.
  rewrite alter_insert_eq. cbn. by rewrite alter_insert_eq.
Qed.

(** A first [join] needs a server for its host: without one it throws,
    whatever else holds. *)
Lemma join_needs_server (options : PlayerInstance.JoinOptions)
    (w : PlayerInstance.t) :
  PlayerInstance.players w !! PlayerInstance.guildID options = None →
  PlayerInstance.serversStorage w !! PlayerInstance.host options = None →
  throws (PlayerInstance.join (Some options) w).
Proof.
  intros Hnone Hserver. unfold throws.
  destruct (PlayerInstance.join (Some options) w) as [[a|e] w'] eqn:Hjoin;
    [|by eexists].
  destruct (join_first_inv options w w' a Hnone Hjoin) as (server & H & _).
  congruence.
Qed.


(** [deleteServer] undoes [createServer]: for a host without a server,
    creating a server and deleting it leaves the instance as it was; the
    server object stays behind, without listeners. *)
Lemma createServer_deleteServer (options : Servers.LavalinkServerOptions)
    (s : Servers.t) :
  PlayerInstance.serversStorage (Servers.instance s) !! Servers.host options = None →
  (Servers.createServer options;; Servers.deleteServer options) s =
    (Return true,
     {| Servers.instance := Servers.instance s;
        Servers.websockets :=
          <[fresh (dom (Servers.websockets s)) :=
              {| Servers.options := options; Servers.listeners := [] |}]>
            (Servers.websockets s) |}).
Proof.
  intros Hnone.
  rewrite (bind_step _ _ _ _ _ (createServer_eq options s)).
  run. cbn. rewrite lookup_insert_eq. cbn.
  unfold Servers.set_websockets, Servers.set_instance, Servers.set_serversStorage.
  cbn. rewrite alter_insert_eq, delete_insert_id by done.
  by destruct s as [[]].
Qed.

(** A second [createServer] for a host replaces the stored server by a new
    object.  The replaced object is not told: it keeps its listeners, and
    the players made on it keep sending to it. *)
Lemma createServer_replaces (options : Servers.LavalinkServerOptions)
    (s s' : Servers.t) old ws server :
  PlayerInstance.serversStorage (Servers.instance s) !! Servers.host options
    = Some old →
  Servers.websockets s !! old = Some ws →
  Servers.createServer options s = (Return server, s') →
  server ≠ old
  ∧ PlayerInstance.serversStorage (Servers.instance s') !! Servers.host options
    = Some server
  ∧ Servers.websockets s' !! old = Some ws
  ∧ PlayerInstance.players (Servers.instance s') =
      PlayerInstance.players (Servers.instance s)
  ∧ PlayerInstance.objects (Servers.instance s') =
      PlayerInstance.objects (Servers.instance s).
Proof.
  intros Hold Hws. rewrite createServer_eq. intros [= <- <-]. cbn.
  assert (fresh (dom (Servers.websockets s)) ≠ old) as Hne.
  { intros <-. apply (is_fresh (dom (Servers.websockets s))).
    apply elem_of_dom. by eexists. }
  repeat split; try done.
  - apply lookup_insert_eq.
  - by rewrite lookup_insert_ne.
Qed.

(** A player made by a first [join] after [createServer] is bound to the
    server that [createServer] returned for the host. *)
Lemma createServer_join (options : Servers.LavalinkServerOptions)
    (o : PlayerInstance.JoinOptions) (s s' : Servers.t) server a w' :
  PlayerInstance.host o = Servers.host options →
  PlayerInstance.players (Servers.instance s) !! PlayerInstance.guildID o = None →
  Servers.createServer options s = (Return server, s') →
  PlayerInstance.join (Some o) (Servers.instance s') = (Return a, w') →
  ∃ p, PlayerInstance.objects w' !! a = Some p
       ∧ Player.server p = server
       ∧ Player.guildID p = PlayerInstance.guildID o
       ∧ Player.channelID p = PlayerInstance.channelID o.
Proof.
  intros Hhost Hnone. rewrite createServer_eq. intros [= <- <-] Hjoin.
  cbn in Hjoin.
  apply join_first_inv in Hjoin as (server' & Hserver & _ & ->); [|exact Hnone].
  cbn in Hserver. rewrite Hhost, lookup_insert_eq in Hserver.
  injection Hserver as <-. cbn. eexists. by rewrite lookup_insert_eq.
Qed.

Lemma join_needs_server_witness :
  PlayerInstance.players (Sample.instance ∅)
    !! PlayerInstance.guildID Scene.elsewhere = None
  ∧ PlayerInstance.serversStorage (Sample.instance ∅)
      !! PlayerInstance.host Scene.elsewhere = None
  ∧ throws (PlayerInstance.join (Some Scene.elsewhere) (Sample.instance ∅)).
Proof.
  repeat (split; [reflexivity|]).
  apply (join_needs_server Scene.elsewhere (Sample.instance ∅)); reflexivity.
Defined.

Lemma createServer_deleteServer_witness :
  PlayerInstance.serversStorage (Servers.instance Scene.bare)
    !! Servers.host Scene.local = None
  ∧ (Servers.createServer Scene.local;; Servers.deleteServer Scene.local)
      Scene.bare =
      (Return true,
       {| Servers.instance := Servers.instance Scene.bare;
          Servers.websockets :=
            <[fresh (dom (Servers.websockets Scene.bare)) :=
                {| Servers.options := Scene.local; Servers.listeners := [] |}]>
              (Servers.websockets Scene.bare) |}).
Proof.
  split; [reflexivity|].
  apply (createServer_deleteServer Scene.local Scene.bare). reflexivity.
Defined.

Lemma createServer_replaces_witness :
  PlayerInstance.serversStorage
    (Servers.instance (Servers.createServer Scene.local Scene.bare).2)
    !! Servers.host Scene.local = Some 0%nat
  ∧ Servers.websockets (Servers.createServer Scene.local Scene.bare).2 !! 0%nat
    = Some {| Servers.options := Scene.local;
              Servers.listeners := ["error"; "message"] |}
  ∧ Servers.createServer Scene.local
      (Servers.createServer Scene.local Scene.bare).2
    = (Return 1%nat,
       (Servers.createServer Scene.local
          (Servers.createServer Scene.local Scene.bare).2).2)
  ∧ Servers.websockets
      (Servers.createServer Scene.local
         (Servers.createServer Scene.local Scene.bare).2).2 !! 0%nat
    = Some {| Servers.options := Scene.local;
              Servers.listeners := ["error"; "message"] |}.
Proof.
  assert (PlayerInstance.serversStorage
            (Servers.instance (Servers.createServer Scene.local Scene.bare).2)
            !! Servers.host Scene.local = Some 0%nat) as H1
    by (vm_compute; reflexivity).
  assert (Servers.websockets (Servers.createServer Scene.local Scene.bare).2
            !! 0%nat
          = Some {| Servers.options := Scene.local;
                    Servers.listeners := ["error"; "message"] |}) as H2
    by (vm_compute; reflexivity).
  assert (Servers.createServer Scene.local
            (Servers.createServer Scene.local Scene.bare).2
          = (Return 1%nat,
             (Servers.createServer Scene.local
                (Servers.createServer Scene.local Scene.bare).2).2)) as H3
    by (vm_compute; reflexivity).
  repeat (split; [assumption|]).
  exact (proj1 (proj2 (proj2 (createServer_replaces _ _ _ _ _ _ H1 H2 H3)))).
Defined.

Lemma createServer_join_witness :
  PlayerInstance.host Sample.options = Servers.host Scene.local
  ∧ PlayerInstance.players (Servers.instance Scene.bare)
      !! PlayerInstance.guildID Sample.options = None
  ∧ Servers.createServer Scene.local Scene.bare
    = (Return 0%nat, (Servers.createServer Scene.local Scene.bare).2)
  ∧ PlayerInstance.join (Some Sample.options)
      (Servers.instance (Servers.createServer Scene.local Scene.bare).2)
    = (Return 0%nat,
       (PlayerInstance.join (Some Sample.options)
          (Servers.instance (Servers.createServer Scene.local Scene.bare).2)).2)
  ∧ ∃ p,
      PlayerInstance.objects
        (PlayerInstance.join (Some Sample.options)
           (Servers.instance (Servers.createServer Scene.local Scene.bare).2)).2
        !! 0%nat = Some p
      ∧ Player.server p = 0%nat
      ∧ Player.guildID p = PlayerInstance.guildID Sample.options
      ∧ Player.channelID p = PlayerInstance.channelID Sample.options.
Proof.
  assert (PlayerInstance.host Sample.options = Servers.host Scene.local) as H1
    by reflexivity.
  assert (PlayerInstance.players (Servers.instance Scene.bare)
            !! PlayerInstance.guildID Sample.options = None) as H2
    by reflexivity.
  assert (Servers.createServer Scene.local Scene.bare
          = (Return 0%nat, (Servers.createServer Scene.local Scene.bare).2)) as H3
    by (vm_compute; reflexivity).
  assert (PlayerInstance.join (Some Sample.options)
            (Servers.instance (Servers.createServer Scene.local Scene.bare).2)
          = (Return 0%nat,
             (PlayerInstance.join (Some Sample.options)
                (Servers.instance
                   (Servers.createServer Scene.local Scene.bare).2)).2)) as H4
    by (vm_compute; reflexivity).
  repeat (split; [assumption|]).
  exact (createServer_join _ _ _ _ _ _ _ H1 H2 H3 H4).
Defined.

(** ** [sendWS] and a guild the client does not know *)

(** For a guild the chat client does not know, only a discord.js client
    that offers [client.ws.send] gets the packet out, through that method;
    every other client makes [sendWS] throw a [TypeError] on the shard of
    the missing guild, with nothing sent. *)
Lemma sendWS_unknown_guild (packet : Packet) (w : PlayerInstance.t) :
  guilds (PlayerInstance.client w) !! vs_guild_id (d packet) = None →
  PlayerInstance.sendWS packet w =
    match PlayerInstance.engine w, sdk (PlayerInstance.client w) with
    | PlayerInstance.discordjs, DiscordJs =>
        if ws_send (PlayerInstance.client w)
        then (Return (),
              PlayerInstance.set_log (PlayerInstance.log w ++ [ws_send_ packet]) w)
        else (Throw TypeError, w)
    | _, _ => (Throw TypeError, w)
    end.
Proof.
  intros Hnone. rewrite sendWS_eq. unfold routable, routed. rewrite Hnone.
  destruct (PlayerInstance.engine w), (sdk (PlayerInstance.client w)); try done.
  by destruct (ws_send (PlayerInstance.client w)).
Qed.

Lemma sendWS_unknown_guild_witness :
  guilds (PlayerInstance.client Sample.stranger)
    !! vs_guild_id (d (join_packet Sample.options)) = None
  ∧ PlayerInstance.sendWS (join_packet Sample.options) Sample.stranger =
      (Throw TypeError, Sample.stranger).
Proof.
  split; [reflexivity|].
  apply (sendWS_unknown_guild (join_packet Sample.options) Sample.stranger).
  reflexivity.
Defined.

(** ** [index.js] *)

(** The guard lets the file load in two cases only: [discord.js] is
    installed and exports a falsy value, or both packages are installed
    and [eris] exports a falsy value.  A package exports an object or a
    function, which is truthy: in every other case, the file throws, with
    the error of [require] when a package is missing and with its own
    error when both are installed. *)
Lemma index_guard (packages : Index.Packages) :
  (Index.guard packages ()).1 = Return ()
  ↔ Index.discord_js packages = Some false
    ∨ (Index.discord_js packages = Some true
       ∧ Index.eris packages = Some false).
Proof.
  unfold Index.guard, Index.require.
  destruct packages as [[[]|] [[]|]]; cbn; split; intros H; try done; auto.
  all: destruct H as [H|[H1 H2]]; done.
Qed.

(** With the packages as they are, the file never loads. *)
Lemma index_never_loads (packages : Index.Packages) :
  Index.discord_js packages ≠ Some false →
  Index.eris packages ≠ Some false →
  throws (Index.guard packages ()).
Proof.
  intros Hd He. unfold throws, Index.guard, Index.require.
  destruct packages as [[[]|] [[]|]]; cbn in *; try done; by eexists.
Qed.

Lemma index_never_loads_witness :
  Some true ≠ Some false
  ∧ (None : option bool) ≠ Some false
  ∧ throws (Index.guard {| Index.discord_js := Some true; Index.eris := None |} ())
  ∧ throws (Index.guard {| Index.discord_js := Some true;
                           Index.eris := Some true |} ()).
Proof.
  assert (Some true ≠ Some false) as H1 by discriminate.
  assert ((None : option bool) ≠ Some false) as H2 by discriminate.
  split; [exact H1|]. split; [exact H2|]. split.
  - exact (index_never_loads
             {| Index.discord_js := Some true; Index.eris := None |} H1 H2).
  - exact (index_never_loads
             {| Index.discord_js := Some true; Index.eris := Some true |} H1 H1).
Defined.
